(** * module-dep-projects: the [httpclient], [errx] and [server] packages

    A shallow embedding of the Go packages [httpclient] (a fluent builder
    around [net/http]) with its demo program, [errx] (the code/status
    tables and [AppError]) and [server] (the [gin] bootstrap and its
    correlation-id middleware), followed by the properties established
    about them. The package [dd] only forwards to the tracer and is not
    modelled.

    Conventions of the embedding:
    - a Go [*HttpClient] is an address into a store of client structs,
      [None] standing for the nil pointer;
    - a Go [map[string]string] is an address into a store of maps
      (Go maps are references), [None] standing for the nil map;
    - a Go [error] is [option error], [None] standing for nil;
    - a Go [[]byte] is [option (list byte)], [None] standing for nil;
    - a Go [int] is a [Z]; the only arithmetic on one, the conversion of
      the timeout to a [time.Duration], has its 64-bit wrap-around written
      out;
    - the behaviour of [net/http] and of the remote endpoints is an
      explicit environment, [NetHttp]. *)

From stdpp Require Import gmap strings list fin_maps pretty.
From Stdlib Require Import ZArith.
From Stdlib Require Strings.Byte.

(* ===================================================================== *)
(** ** Package [errx]: codes and HTTP statuses                            *)
(* ===================================================================== *)

Module errx.

(** [type Code string] *)
Definition Code := string.

Definition INTERNAL : Code := "INTERNAL".
Definition BAD_REQUEST : Code := "BAD_REQUEST".
Definition UNAUTHORIZED : Code := "UNAUTHORIZED".
Definition FORBIDDEN : Code := "FORBIDDEN".
Definition NOT_FOUND : Code := "NOT_FOUND".
Definition CONFLICT : Code := "CONFLICT".

(** The constants of the [const] block, in declaration order. *)
Definition codes : list Code :=
  [INTERNAL; BAD_REQUEST; UNAUTHORIZED; FORBIDDEN; NOT_FOUND; CONFLICT].

(** [func ToHTTPCode(code Code) int]: a [switch] on the string. *)
Definition ToHTTPCode (code : Code) : Z :=
  if String.eqb code BAD_REQUEST then 400
  else if String.eqb code UNAUTHORIZED then 401
  else if String.eqb code FORBIDDEN then 403
  else if String.eqb code NOT_FOUND then 404
  else if String.eqb code CONFLICT then 409
  else 500.

(** [func StatusToCode(status int) Code]: the [>= 500] test comes
    first, then the [switch]. *)
Definition StatusToCode (status : Z) : Code :=
  if (500 <=? status)%Z then INTERNAL
  else if (status =? 401)%Z then UNAUTHORIZED
  else if (status =? 403)%Z then FORBIDDEN
  else if (status =? 404)%Z then NOT_FOUND
  else if (status =? 409)%Z then CONFLICT
  else BAD_REQUEST.

End errx.

(* ===================================================================== *)
(** ** Package [httpclient]                                               *)
(* ===================================================================== *)

Module httpclient.

(** *** Values *)

Definition loc := positive.

(** A non-nil Go [error], identified by its message. *)
Definition error := string.

(** [type OptionsHttpclient struct] *)
Record OptionsHttpclient := mkOptions {
  RetryCount : Z;
  Timeout : Z
}.

(** [type HttpClient struct]; [headers] holds a reference to a map. *)
Record HttpClient := mkClient {
  url : string;
  headers : option loc;
  retryCount : Z;
  timeout : Z
}.

(** *** The part of [net/http] and [io] the package uses *)

(** [http.Request]: method, target and the [http.Header] multimap. *)
Record Request := mkRequest {
  Method : string;
  URL : string;
  Header : gmap string (list string)
}.

(** A response body, described by what [io.ReadAll] yields on it: the
    bytes read and the error that stopped the read, if any. *)
Record ReadCloser := mkBody {
  content : list Byte.byte;
  readErr : option error
}.

(** [http.Response] *)
Record Response := mkResponse {
  StatusCode : Z;
  Body : ReadCloser
}.

(** What goes over the wire, in order: each [client.Do] with the
    timeout of the [http.Client] that issued it, and each
    [resp.Body.Close]. *)
Inductive event :=
| EvDo (d : Z) (req : Request)
| EvClose (resp : Response).

(** The environment: how URLs parse, how header keys are canonicalised,
    in which order a [range] visits a map (Go leaves it unspecified),
    and what a round trip yields given everything sent before. *)
Record NetHttp := mkNet {
  urlParse : string → option error;
  canonicalKey : string → string;
  rangeOrder : gmap string string → list (string * string);
  rangeOrder_perm : ∀ m, rangeOrder m ≡ₚ map_to_list m;
  roundTrip : list event → Z → Request → Response + error
}.

(** *** Program state *)

(** The heap of clients, the heap of header maps, the package-level
    variable [retryableStatus], and the wire. *)
Record state := mkState {
  clients : gmap loc HttpClient;
  maps : gmap loc (gmap string string);
  retryableStatus : gmap Z bool;
  wire : list event
}.

Definition set_clients (f : gmap loc HttpClient → gmap loc HttpClient)
    (σ : state) : state :=
  mkState (f (clients σ)) (maps σ) (retryableStatus σ) (wire σ).

Definition set_maps
    (f : gmap loc (gmap string string) → gmap loc (gmap string string))
    (σ : state) : state :=
  mkState (clients σ) (f (maps σ)) (retryableStatus σ) (wire σ).

Definition set_retryableStatus (rs : gmap Z bool) (σ : state) : state :=
  mkState (clients σ) (maps σ) rs (wire σ).

Definition set_wire (f : list event → list event) (σ : state) : state :=
  mkState (clients σ) (maps σ) (retryableStatus σ) (f (wire σ)).

(** [var retryableStatus = map[int]bool{...}] as the package
    initialises it. *)
Definition retryableStatus_init : gmap Z bool :=
  <[408%Z := true]> (<[429%Z := true]> (<[500%Z := true]>
    (<[502%Z := true]> (<[503%Z := true]> (<[504%Z := true]> ∅))))).

Definition init : state := mkState ∅ ∅ retryableStatus_init [].

(** *** Computations: state passing with run-time panics *)

Inductive panic :=
| NilDereference   (* invalid memory address or nil pointer dereference *)
| NilMapAssignment (* assignment to entry in nil map *).

Inductive result (A : Type) :=
| Ok (a : A) (σ : state)
| Panic (p : panic).
Arguments Ok {A} a σ.
Arguments Panic {A} p.

Definition M (A : Type) : Type := state → result A.

#[global] Instance M_ret : MRet M := λ A a σ, Ok a σ.
#[global] Instance M_bind : MBind M := λ A B f m σ,
  match m σ with
  | Ok a σ' => f a σ'
  | Panic p => Panic p
  end.

(** [*h]: reading through a pointer. An address that holds no struct
    cannot arise in Go; it is treated like nil. *)
Definition load (h : option loc) : M HttpClient := λ σ,
  match h with
  | None => Panic NilDereference
  | Some p =>
      match clients σ !! p with
      | Some c => Ok c σ
      | None => Panic NilDereference
      end
  end.

(** [*h = c]: writing through a pointer. *)
Definition store (h : option loc) (c : HttpClient) : M unit := λ σ,
  match h with
  | None => Panic NilDereference
  | Some p =>
      match clients σ !! p with
      | Some _ => Ok () (set_clients <[p := c]> σ)
      | None => Panic NilDereference
      end
  end.

(** [&HttpClient{...}]: a struct at a fresh address. *)
Definition alloc (c : HttpClient) : M (option loc) := λ σ,
  let p := fresh (dom (clients σ)) in
  Ok (Some p) (set_clients <[p := c]> σ).

(** [make(map[string]string)] *)
Definition make_map : M (option loc) := λ σ,
  let m := fresh (dom (maps σ)) in
  Ok (Some m) (set_maps <[m := ∅]> σ).

(** [m[key] = value]; panics on the nil map. *)
Definition map_assign (m : option loc) (key value : string) : M unit := λ σ,
  match m with
  | None => Panic NilMapAssignment
  | Some a =>
      match maps σ !! a with
      | Some kv => Ok () (set_maps <[a := <[key := value]> kv]> σ)
      | None => Panic NilMapAssignment
      end
  end.

(** The contents of a map as a [range] sees them; the nil map is
    empty. *)
Definition map_contents (m : option loc) : M (gmap string string) := λ σ,
  match m with
  | None => Ok ∅ σ
  | Some a => Ok (default ∅ (maps σ !! a)) σ
  end.

(** *** [time] and [net/http], over an environment *)

(** Two's-complement wrap-around of [int64] arithmetic. *)
Definition wrap64 (z : Z) : Z := ((z + 2 ^ 63) `mod` 2 ^ 64 - 2 ^ 63)%Z.

(** [time.Second], in nanoseconds. *)
Definition Second : Z := 1000000000.

(** [time.Duration(n) * time.Second] *)
Definition seconds (n : Z) : Z := wrap64 (n * Second).

(** The three results of [SendGet]: body, status code, error. *)
Definition reply : Type := option (list Byte.byte) * Z * option error.

Section operations.
Context (net : NetHttp).

(** [http.NewRequest(method, url, nil)]: fails exactly when the URL does
    not parse (the only method passed, [GET], is a valid one). *)
Definition NewRequest (method target : string) : Request + error :=
  match urlParse net target with
  | Some err => inr err
  | None => inl (mkRequest method target ∅)
  end.

(** [h.Header.Set(key, value)]: the canonical key gets the one value. *)
Definition Header_Set (key value : string) (req : Request) : Request :=
  mkRequest (Method req) (URL req)
            (<[canonicalKey net key := [value]]> (Header req)).

(** [client.Do(request)] for an [http.Client] with timeout [d]. *)
Definition Do (d : Z) (request : Request) : M (Response + error) := λ σ,
  Ok (roundTrip net (wire σ) d request)
     (set_wire (λ w, w ++ [EvDo d request]) σ).

(** [io.ReadAll(body)]: always a non-nil slice, and the error if any. *)
Definition ReadAll (body : ReadCloser) : option (list Byte.byte) * option error :=
  (Some (content body), readErr body).

(** [resp.Body.Close()] *)
Definition Close (resp : Response) : M unit := λ σ,
  Ok () (set_wire (λ w, w ++ [EvClose resp]) σ).

(** *** The package's functions *)

(** [func NewHttpClient(ops OptionsHttpclient) *HttpClient] *)
Definition NewHttpClient (ops : OptionsHttpclient) : M (option loc) :=
  header ← make_map;
  _ ← map_assign header "Content-Type" "application/json";
  alloc (mkClient "" header (RetryCount ops) (Timeout ops)).

(** [func (h *HttpClient) SetUrl(url string) *HttpClient] *)
Definition SetUrl (h : option loc) (target : string) : M (option loc) :=
  c ← load h;
  _ ← store h (mkClient target (headers c) (retryCount c) (timeout c));
  mret h.

(** [func (h *HttpClient) SetHeader(key, value string) *HttpClient] *)
Definition SetHeader (h : option loc) (key value : string) : M (option loc) :=
  c ← load h;
  _ ← map_assign (headers c) key value;
  mret h.

(** [func (h *HttpClient) SetBearerToken(token string) *HttpClient] *)
Definition SetBearerToken (h : option loc) (token : string) : M (option loc) :=
  c ← load h;
  _ ← map_assign (headers c) "Autorization" ("Bearer " +:+ token);
  mret h.

(** [func setHeaderInNewRequest(headers map[string]string, h *http.Request)]:
    one [Header.Set] per entry, in the order the [range] yields them. *)
Definition setHeaderInNewRequest (kvs : gmap string string) (req : Request)
    : Request :=
  foldl (λ r kv, Header_Set kv.1 kv.2 r) req (rangeOrder net kvs).

(** [func sendClient(h *HttpClient, request *http.Request) ([]byte, int, error)];
    the deferred [Close] runs on both exits that follow it. *)
Definition sendClient (h : option loc) (request : Request) : M reply :=
  c ← load h;
  r ← Do (seconds (timeout c)) request;
  match r with
  | inr err => mret (None, 500%Z, Some err)
  | inl resp =>
      let '(bodyBytes, err) := ReadAll (Body resp) in
      match err with
      | Some e =>
          _ ← Close resp;
          mret (None, StatusCode resp, Some e)
      | None =>
          _ ← Close resp;
          mret (bodyBytes, StatusCode resp, None)
      end
  end.

(** [func (h *HttpClient) SendGet() ([]byte, int, error)] *)
Definition SendGet (h : option loc) : M reply :=
  c ← load h;
  match NewRequest "GET" (url c) with
  | inr err => mret (None, 500%Z, Some err)
  | inl req =>
      c' ← load h;
      kvs ← map_contents (headers c');
      let req := setHeaderInNewRequest kvs req in
      '(response, statusCode, err) ← sendClient h req;
      match err with
      | Some _ => mret (None, statusCode, err)
      | None => mret (response, statusCode, err)
      end
  end.

(** [func (h *HttpClient) SendPost()]: an empty body; the receiver is
    never dereferenced. *)
Definition SendPost (h : option loc) : M unit := mret ().

End operations.

(** *** Observations used in the statements *)

(** The number of requests put on the wire. *)
Fixpoint attempts (w : list event) : nat :=
  match w with
  | [] => 0
  | EvDo _ _ :: w' => S (attempts w')
  | EvClose _ :: w' => attempts w'
  end.

(** The header map a pointer leads to, when both the struct and the map
    are live. *)
Definition header_map (σ : state) (h : option loc)
    : option (gmap string string) :=
  p ← h; c ← clients σ !! p; m ← headers c; maps σ !! m.

(** The entries a [range] over the headers of [c] goes through. *)
Definition headers_of (σ : state) (c : HttpClient) : gmap string string :=
  match headers c with
  | None => ∅
  | Some a => default ∅ (maps σ !! a)
  end.

(** The request [SendGet] hands to the transport for client [c], or the
    construction error. *)
Definition request_of (net : NetHttp) (σ : state) (c : HttpClient)
    : Request + error :=
  match NewRequest net "GET" (url c) with
  | inl req => inl (setHeaderInNewRequest net (headers_of σ c) req)
  | inr err => inr err
  end.

(** The requests a call of [SendGet] adds to the wire; [None] when the
    call panics. *)
Definition attempts_made (net : NetHttp) (h : option loc) (σ : state)
    : option nat :=
  match SendGet net h σ with
  | Ok _ σ' => Some (attempts (wire σ') - attempts (wire σ))
  | Panic _ => None
  end.

(** The reply one round trip amounts to: what [sendClient] makes of the
    transport's answer. *)
Definition attempt_reply (r : Response + error) : reply :=
  match r with
  | inr err => (None, 500%Z, Some err)
  | inl resp =>
      match readErr (Body resp) with
      | Some e => (None, StatusCode resp, Some e)
      | None => (Some (content (Body resp)), StatusCode resp, None)
      end
  end.

(** The state in which client [p] has retry count [n] and the package's
    table is [rs], all else as in [σ]. *)
Definition with_retry (p : loc) (n : Z) (rs : gmap Z bool) (σ : state) : state :=
  set_retryableStatus rs
    (set_clients (alter (λ c, mkClient (url c) (headers c) n (timeout c)) p) σ).

(** The two shapes of a reply. *)
Definition success (r : reply) : Prop :=
  ∃ body, r.1.1 = Some body ∧ r.2 = None.

Definition failure (r : reply) : Prop :=
  ∃ err, r.1.1 = None ∧ r.2 = Some err.

(** The state a computation ends in, started from [σ]; [σ] itself when
    it panics. *)
Definition exec {A} (m : M A) (σ : state) : state :=
  match m σ with
  | Ok _ σ' => σ'
  | Panic _ => σ
  end.

(** The three builder methods, as data. *)
Inductive builder :=
| BSetUrl (target : string)
| BSetHeader (key value : string)
| BSetBearerToken (token : string).

Definition call (b : builder) (h : option loc) : M (option loc) :=
  match b with
  | BSetUrl target => SetUrl h target
  | BSetHeader key value => SetHeader h key value
  | BSetBearerToken token => SetBearerToken h token
  end.

(** A fluent chain [h.b1(...).b2(...)...]: each method is invoked on
    what the previous one returned. *)
Fixpoint chain (bs : list builder) (h : option loc) : M (option loc) :=
  match bs with
  | [] => mret h
  | b :: bs' => h' ← call b h; chain bs' h'
  end.

(** *** A concrete environment *)

Definition bytes (s : string) : list Byte.byte := String.list_byte_of_string s.

(** A small network: one URL that does not parse, one host that is down,
    one endpoint per status of interest, one whose body breaks off, and
    one that answers 503 to the first request on the wire and 200 to the
    later ones. *)
Definition example_roundTrip (w : list event) (d : Z) (req : Request)
    : Response + error :=
  if String.eqb (URL req) "https://httpbin.org/get"
  then inl (mkResponse 200 (mkBody (bytes "ok") None))
  else if String.eqb (URL req) "http://example.test/missing"
  then inl (mkResponse 404 (mkBody (bytes "not found") None))
  else if String.eqb (URL req) "http://example.test/truncated"
  then inl (mkResponse 200 (mkBody (bytes "{") (Some "unexpected EOF")))
  else if String.eqb (URL req) "http://example.test/flaky"
  then match attempts w with
       | O => inl (mkResponse 503 (mkBody (bytes "busy") None))
       | S _ => inl (mkResponse 200 (mkBody (bytes "ok") None))
       end
  else if String.eqb (URL req) ""
  then inr "unsupported protocol scheme"
  else inr "connection refused".

Definition example_net : NetHttp :=
  mkNet (λ u, if String.eqb u ":" then Some "missing protocol scheme" else None)
        (λ k, k)
        map_to_list
        (λ m, reflexivity (map_to_list m))
        example_roundTrip.

(** [main] of the demo program up to, but excluding, [SendGet], with the
    target as a parameter. *)
Definition configure (target : string) : M (option loc) :=
  h ← NewHttpClient (mkOptions 5 2);
  h ← SetUrl h target;
  h ← SetHeader h "test" "val1";
  SetHeader h "test2" "val2".

Definition configured (target : string) : state := exec (configure target) init.

End httpclient.

(* ===================================================================== *)
(** ** The demo program                                                   *)
(* ===================================================================== *)

Module program.
Import httpclient.



End program.

(* ===================================================================== *)
(** ** Package [errx]: [AppError] and its helpers                         *)
(* ===================================================================== *)

(** Conventions, beyond those of the header: a Go [error] interface
    value is [option error], and the non-nil ones are those the package
    can meet: an [errors.New] value, an [fmt.Errorf] wrapper around
    another error (its message is fixed when it is made), or a
    [*AppError], the nil pointer included. A Go [interface{}] stored in
    [Details] is a value of an arbitrary type [any]; the code never
    looks into one. Recursion through the heap ([Error]) takes fuel. *)

Module apperror.
Import errx.

Definition loc := positive.

Inductive error :=
| Plain (msg : string)
| Wrap (msg : string) (inner : error)
| App (e : option loc).

(** [type AppError struct]; [Details] holds a reference to a map. *)
Record AppError := mkAppError {
  Message : string;
  Code : errx.Code;
  Err : option error;
  Caller : string;
  Details : option loc
}.


(** What [runtime.Caller(1)] and [runtime.FuncForPC] report for a call
    site. *)
Record site := mkSite {
  file : string;
  line : Z;
  funcName : string
}.

(** The heap of [AppError] structs, the heap of [Details] maps and the
    package-level variable [separator]. *)
Record heap (any : Type) := mkHeap {
  errs : gmap loc AppError;
  details : gmap loc (gmap string any);
  separator : string
}.
Arguments mkHeap {any} errs details separator.
Arguments errs {any} h.
Arguments details {any} h.
Arguments separator {any} h.

(** [var separator = "->"] and empty heaps. *)
Definition start (any : Type) : heap any := mkHeap ∅ ∅ "->".

Inductive res (any A : Type) :=
| Done (a : A) (σ : heap any)
| Crash.
Arguments Done {any A} a σ.
Arguments Crash {any A}.

Definition E (any A : Type) : Type := heap any → res any A.

#[global] Instance E_ret (any : Type) : MRet (E any) := λ A a σ, Done a σ.
#[global] Instance E_bind (any : Type) : MBind (E any) := λ A B f m σ,
  match m σ with
  | Done a σ' => f a σ'
  | Crash => Crash
  end.

(** [errors.As(err, &appErr)] for a non-nil [err]: the first
    [*AppError] down the [Unwrap] chain, whatever the pointer holds. *)
Fixpoint errors_As (err : error) : option (option loc) :=
  match err with
  | Plain _ => None
  | Wrap _ inner => errors_As inner
  | App e => Some e
  end.

(** [fmt.Sprintf("[%s:%d %s]", file, line, fn.Name())] *)
Definition format_site (s : site) : string :=
  "[" +:+ file s +:+ ":" +:+ pretty (line s) +:+ " " +:+ funcName s +:+ "]".

Section operations.
Context {any : Type}.

Definition set_errs (f : gmap loc AppError → gmap loc AppError)
    (σ : heap any) : heap any :=
  mkHeap (f (errs σ)) (details σ) (separator σ).

Definition set_details
    (f : gmap loc (gmap string any) → gmap loc (gmap string any))
    (σ : heap any) : heap any :=
  mkHeap (errs σ) (f (details σ)) (separator σ).

(** [*e]; an address that holds no struct is treated like nil. *)
Definition load (e : option loc) : E any AppError := λ σ,
  match e ≫= (errs σ !!.) with
  | Some a => Done a σ
  | None => Crash
  end.

(** [*e = a] *)
Definition store (e : option loc) (a : AppError) : E any unit := λ σ,
  match e with
  | Some p =>
      match errs σ !! p with
      | Some _ => Done () (set_errs <[p := a]> σ)
      | None => Crash
      end
  | None => Crash
  end.

(** [&AppError{...}] *)
Definition alloc (a : AppError) : E any (option loc) := λ σ,
  let p := fresh (dom (errs σ)) in
  Done (Some p) (set_errs <[p := a]> σ).

(** [make(map[string]interface{})] *)
Definition make_details : E any (option loc) := λ σ,
  let m := fresh (dom (details σ)) in
  Done (Some m) (set_details <[m := ∅]> σ).

(** The entries of a map, as [len] and [range] see them; the nil map
    has none. *)
Definition entries (m : option loc) : E any (gmap string any) := λ σ,
  Done (default ∅ (m ≫= (details σ !!.))) σ.

(** [m[k] = v]; panics on the nil map. *)
Definition assign (m : option loc) (k : string) (v : any) : E any unit := λ σ,
  match m with
  | Some a =>
      match details σ !! a with
      | Some kv => Done () (set_details <[a := <[k := v]> kv]> σ)
      | None => Crash
      end
  | None => Crash
  end.

(** [func New(message string) *AppError] *)
Definition New (message : string) : E any (option loc) :=
  alloc (mkAppError message "" None "" None).

(** [func SetSeparator(sep string)] *)
Definition SetSeparator (sep : string) : E any unit := λ σ,
  Done () (mkHeap (errs σ) (details σ) sep).

(** [func (e *AppError) WithCode(code Code) *AppError] *)
Definition WithCode (e : option loc) (code : errx.Code) : E any (option loc) :=
  a ← load e;
  if negb (String.eqb (Code a) "") then mret e
  else
    _ ← store e (mkAppError (Message a) code (Err a) (Caller a) (Details a));
    mret e.

(** The loop of [WithError]: [e.Details[k] = v] for the keys [e.Details]
    lacks. *)
Fixpoint inherit (e : option loc) (kvs : list (string * any)) : E any unit :=
  match kvs with
  | [] => mret ()
  | (k, v) :: rest =>
      a ← load e;
      own ← entries (Details a);
      _ ← match own !! k with
          | Some _ => mret ()
          | None => assign (Details a) k v
          end;
      inherit e rest
  end.

(** [func (e *AppError) WithError(err error) *AppError]. The [&&] are
    short-circuit: [inner] is read only where [e]'s field is empty. *)
Definition WithError (e : option loc) (err : option error) : E any (option loc) :=
  match err with
  | None => mret e
  | Some ev =>
      _ ← match errors_As ev with
          | Some inner =>
              a ← load e;
              _ ← (if String.eqb (Code a) "" then
                     i ← load inner;
                     if negb (String.eqb (Code i) "") then
                       store e (mkAppError (Message a) (Code i) (Err a)
                                  (Caller a) (Details a))
                     else mret ()
                   else mret ());
              a ← load e;
              _ ← (if String.eqb (Caller a) "" then
                     i ← load inner;
                     if negb (String.eqb (Caller i) "") then
                       store e (mkAppError (Message a) (Code a) (Err a)
                                  (Caller i) (Details a))
                     else mret ()
                   else mret ());
              i ← load inner;
              kvs ← entries (Details i);
              if (0 <? size kvs)%nat then
                a ← load e;
                _ ← match Details a with
                    | None =>
                        m ← make_details;
                        store e (mkAppError (Message a) (Code a) (Err a)
                                   (Caller a) m)
                    | Some _ => mret ()
                    end;
                inherit e (map_to_list kvs)
              else mret ()
          | None => mret ()
          end;
      a ← load e;
      _ ← store e (mkAppError (Message a) (Code a) (Some ev) (Caller a)
                     (Details a));
      mret e
  end.

(** [func (e *AppError) WithCaller() *AppError], called from [s]. *)
Definition WithCaller (e : option loc) (s : site) : E any (option loc) :=
  a ← load e;
  if negb (String.eqb (Caller a) "") then mret e
  else
    _ ← store e (mkAppError (Message a) (Code a) (Err a) (format_site s)
                   (Details a));
    mret e.

(** The loop of [WithDetails]: [e.Details[k] = v] for every entry. *)
Fixpoint assign_all (e : option loc) (kvs : list (string * any)) : E any unit :=
  match kvs with
  | [] => mret ()
  | (k, v) :: rest =>
      a ← load e;
      _ ← assign (Details a) k v;
      assign_all e rest
  end.

(** [func (e *AppError) WithDetails(details map[string]interface{}) *AppError] *)
Definition WithDetails (e : option loc) (d : option loc) : E any (option loc) :=
  a ← load e;
  _ ← match Details a with
      | None =>
          m ← make_details;
          store e (mkAppError (Message a) (Code a) (Err a) (Caller a) m)
      | Some _ => mret ()
      end;
  kvs ← entries d;
  _ ← assign_all e (map_to_list kvs);
  mret e.

(** What the verb [%s] prints for a non-nil error operand: its
    [Error()], and ["<nil>"] where that is a nil [*AppError]. ([fmt]
    recovers from the nil dereference.) [None]: out of fuel. *)
Fixpoint fmt_s (n : nat) (σ : heap any) (ev : error) : option string :=
  match ev with
  | Plain msg => Some msg
  | Wrap msg _ => Some msg
  | App e =>
      match n with
      | O => None
      | S n' =>
          match e ≫= (errs σ !!.) with
          | None => Some "<nil>"
          | Some a =>
              match Err a with
              | None => Some (Message a)
              | Some inner =>
                  s ← fmt_s n' σ inner;
                  Some (Message a +:+ " " +:+ separator σ +:+ " " +:+ s)
              end
          end
      end
  end.

(** [func (e *AppError) Error() string]; [None]: out of fuel. *)
Definition Error (n : nat) (e : option loc) (σ : heap any)
    : option (res any string) :=
  match e ≫= (errs σ !!.) with
  | None => Some Crash
  | Some a =>
      match Err a with
      | None => Some (Done (Message a) σ)
      | Some inner =>
          s ← fmt_s n σ inner;
          Some (Done (Message a +:+ " " +:+ separator σ +:+ " " +:+ s) σ)
      end
  end.

(** [func (e *AppError) Unwrap() error] *)
Definition Unwrap (e : option loc) : E any (option error) :=
  a ← load e; mret (Err a).

(** [func asAppError(err error)], returning the pointer and the flag *)
Definition asAppError (err : option error) : option loc * bool :=
  match err ≫= errors_As with
  | Some e => (e, true)
  | None => (None, false)
  end.

(** [func IsAppError(err error) bool] *)
Definition IsAppError (err : option error) : bool :=
  match err ≫= errors_As with
  | Some _ => true
  | None => false
  end.

(** [func GetAppError(err error) *AppError] *)
Definition GetAppError (err : option error) : option loc :=
  match err ≫= errors_As with
  | Some e => e
  | None => None
  end.

(** [func GetCode(err error) Code] *)
Definition GetCode (err : option error) : E any errx.Code :=
  match err ≫= errors_As with
  | Some e =>
      a ← load e;
      if negb (String.eqb (Code a) "") then mret (Code a) else mret INTERNAL
  | None => mret INTERNAL
  end.

(** [func GetStatusCode(err error) int] *)
Definition GetStatusCode (err : option error) : E any Z :=
  match err ≫= errors_As with
  | Some e =>
      a ← load e;
      if negb (String.eqb (Code a) "") then mret (ToHTTPCode (Code a))
      else mret 500%Z
  | None => mret 500%Z
  end.

(** [func GetCaller(err error) string] *)
Definition GetCaller (err : option error) : E any string :=
  match err ≫= errors_As with
  | Some e => a ← load e; mret (Caller a)
  | None => mret ""
  end.

(** [func GetDetails(err error) map[string]interface{}] *)
Definition GetDetails (err : option error) : E any (option loc) :=
  match err ≫= errors_As with
  | Some e => a ← load e; mret (Details a)
  | None => mret None
  end.



End operations.

(** *** Observations used in the statements *)

(** The entries of the [Details] of the struct at [p]; none for a nil
    map, [None] when there is no struct. *)
Definition details_at {any} (σ : heap any) (p : loc)
    : option (gmap string any) :=
  a ← errs σ !! p; Some (default ∅ (Details a ≫= (details σ !!.))).

(** The statuses [ToHTTPCode] can return. *)
Definition statuses : list Z := [400; 401; 403; 404; 409; 500]%Z.

(** [chain σ ev msgs]: following [Err] from [ev] through the heap ends,
    and [msgs] are the messages met on the way. *)
Inductive chain {any} (σ : heap any) : error → list string → Prop :=
| chain_plain msg : chain σ (Plain msg) [msg]
| chain_wrap msg inner : chain σ (Wrap msg inner) [msg]
| chain_nil e : e ≫= (errs σ !!.) = None → chain σ (App e) ["<nil>"]
| chain_last p a :
    errs σ !! p = Some a → Err a = None →
    chain σ (App (Some p)) [Message a]
| chain_next p a inner msgs :
    errs σ !! p = Some a → Err a = Some inner → chain σ inner msgs →
    chain σ (App (Some p)) (Message a :: msgs).

(** *** A sample program *)

(** The state a computation ends in; the starting state when it
    panics. *)
Definition after {any A} (c : E any A) (σ : heap any) : heap any :=
  match c σ with
  | Done _ σ' => σ'
  | Crash => σ
  end.

(** An error with a code and details, wrapped by [fmt.Errorf], wrapped
    by a second [AppError], wrapped by a third. The structs end up at
    addresses 1, 2 and 3. *)
Definition sample : E string (option loc) :=
  inner ← New "no such user";
  inner ← WithCode inner NOT_FOUND;
  d ← make_details;
  _ ← assign d "id" "42";
  inner ← WithDetails inner d;
  outer ← New "lookup failed";
  outer ← WithError outer (Some (Wrap "repository: no such user" (App inner)));
  top ← New "handler failed";
  WithError top (Some (App outer)).

Definition sample_heap : heap string := after sample (start string).

End apperror.

(* ===================================================================== *)
(** ** Package [server]                                                   *)
(* ===================================================================== *)

(** The package drives [gin]; what is modelled is the sequence of calls
    it makes on [gin] and on [fmt], in order. Handlers and route mounts
    supplied by the caller are values of arbitrary types [F] and [R]:
    the package only stores them and passes them on. A method with
    receiver [s *Server] is a function of the struct before the call to
    the struct after it. *)

Module server.

Section server.
Context {F R : Type}.

(** A [gin.HandlerFunc] by origin: [gin.Recovery()], [addLogger()],
    [xItauCorrelationId()], the closure of [addHealthCheck], or one of
    the caller's. *)
Inductive handler :=
| Recovery
| addLogger
| xItauCorrelationId
| healthCheck
| Custom (h : F).

(** The calls [Run] makes. *)
Inductive call :=
| SetMode (mode : string)          (* gin.SetMode(mode) *)
| New                              (* gin.New() *)
| Use (hs : list handler)          (* s.gin.Use(hs...) *)
| GET (path : string) (h : handler) (* s.gin.GET(path, h) *)
| Mount (r : R)                    (* route(s.gin) *)
| Println (line : string)          (* fmt.Println(line) *)
| EngineRun (addr : string).       (* s.gin.Run(addr) *)

(** [type Server struct]; [gin] is [None] for the nil engine and
    otherwise tells which [gin.New()] of the run made it. *)
Record Server := mkServer {
  gin : option nat;
  ginMode : string;
  middlewares : list F;
  routes : list R
}.



(** [func (s *Server) Middlewares(middleware ...gin.HandlerFunc) *Server] *)
Definition Middlewares (s : Server) (middleware : list F) : Server :=
  mkServer (gin s) (ginMode s) (middlewares s ++ middleware) (routes s).

(** [func (s *Server) Routes(route ...RouteMount) *Server] *)
Definition Routes (s : Server) (route : list R) : Server :=
  mkServer (gin s) (ginMode s) (middlewares s) (routes s ++ route).

(** [func (s *Server) GinMode(mode string) *Server] *)
Definition GinMode (s : Server) (mode : string) : Server :=
  mkServer (gin s) mode (middlewares s) (routes s).





(** The builder calls, as data, and a fluent chain of them. *)
Inductive setting :=
| SMiddlewares (middleware : list F)
| SRoutes (route : list R)
| SGinMode (mode : string).

Definition set (s : Server) (b : setting) : Server :=
  match b with
  | SMiddlewares middleware => Middlewares s middleware
  | SRoutes route => Routes s route
  | SGinMode mode => GinMode s mode
  end.




End server.

Arguments handler : clear implicits.
Arguments call : clear implicits.
Arguments Server : clear implicits.
Arguments setting : clear implicits.

(** *** The correlation-id middleware *)

(** The part of a [gin.Context] the middleware touches: the headers of
    the request, the headers of the response, and how often [c.Next()]
    was called. Header maps are keyed by canonical name. *)
Record Context := mkContext {
  requestHeader : gmap string (list string);
  responseHeader : gmap string (list string);
  nexts : nat
}.

(** [http.Header.Get]: the first value under the canonical key, or the
    empty string. *)
Definition Header_Get (canon : string → string)
    (h : gmap string (list string)) (key : string) : string :=
  match h !! canon key with
  | Some (v :: _) => v
  | _ => ""
  end.

(** The handler [xItauCorrelationId()] returns, run on [c]; [uuid] is
    what [uuid.New().String()] gives if it is called. *)
Definition xItauCorrelationId_handler (canon : string → string)
    (uuid : string) (c : Context) : Context :=
  let id := Header_Get canon (requestHeader c) "x-itau-correlation-id" in
  let id := if String.eqb id "" then uuid else id in
  mkContext (requestHeader c)
            (<[canon "x-itau-correlation-id" := [id]]> (responseHeader c))
            (S (nexts c)).

End server.

(* ===================================================================== *)
(** ** Properties of [errx]                                               *)
(* ===================================================================== *)

Section errx_facts.
Import errx.

(** The status of each constant. *)
Lemma ToHTTPCode_table :
  map ToHTTPCode codes = [500; 400; 401; 403; 404; 409]%Z.
Proof. reflexivity. Qed.

(** Statuses from 500 up all fall back to [INTERNAL]. *)
Lemma StatusToCode_server_error (status : Z) :
  (500 ≤ status)%Z → StatusToCode status = INTERNAL.
Proof.
  intros Hge. unfold StatusToCode.
  destruct (Z.leb_spec 500 status) as [_ | Hlt]; [reflexivity | lia].
Qed.

(** C10: on the six constants of the package, [StatusToCode] undoes
    [ToHTTPCode]: for every [c] among INTERNAL, BAD_REQUEST, UNAUTHORIZED,
    FORBIDDEN, NOT_FOUND and CONFLICT, [StatusToCode (ToHTTPCode c) = c]. *)
Theorem StatusToCode_ToHTTPCode (c : Code) :
  c ∈ codes → StatusToCode (ToHTTPCode c) = c.
Proof.
  unfold codes. rewrite !elem_of_cons, elem_of_nil.
  intros [-> | [-> | [-> | [-> | [-> | [-> | []]]]]]]; reflexivity.
Qed.

Lemma StatusToCode_ToHTTPCode_witness :
  NOT_FOUND ∈ codes ∧ StatusToCode (ToHTTPCode NOT_FOUND) = NOT_FOUND.
Proof.
  assert (Hin : NOT_FOUND ∈ codes) by (unfold codes; repeat constructor).
  split; [exact Hin | exact (StatusToCode_ToHTTPCode NOT_FOUND Hin)].
Defined.

(** Outside the constants the round trip is lossy: the empty code maps
    to 500 and comes back as [INTERNAL]. *)
Lemma StatusToCode_ToHTTPCode_unknown :
  StatusToCode (ToHTTPCode "") = INTERNAL.
Proof. reflexivity. Qed.

End errx_facts.

(* ===================================================================== *)
(** ** Properties of [httpclient]                                         *)
(* ===================================================================== *)

Section httpclient_facts.
Import httpclient.

(** Unfolds the monadic plumbing down to matches on the state. *)
Ltac step :=
  unfold SendGet, sendClient, SetUrl, SetHeader, SetBearerToken,
    NewHttpClient, Do, Close, ReadAll, load, store, alloc, make_map,
    map_assign, map_contents, mbind, M_bind, mret, M_ret; simpl.

(** *** The wire *)

Lemma attempts_app (w1 w2 : list event) :
  attempts (w1 ++ w2) = attempts w1 + attempts w2.
Proof.
  induction w1 as [| [d req | resp] w1 IH]; simpl; [reflexivity | | exact IH].
  now rewrite IH.
Qed.

(** *** [sendClient]: one round trip *)

(** On a live client [sendClient] puts exactly one request on the wire,
    with the client's timeout in nanoseconds, and returns what
    [attempt_reply] makes of the answer. *)
Lemma sendClient_one_attempt (net : NetHttp) (σ : state) (p : loc)
    (c : HttpClient) (req : Request) :
  clients σ !! p = Some c →
  ∃ σ',
    sendClient net (Some p) req σ
      = Ok (attempt_reply (roundTrip net (wire σ) (seconds (timeout c)) req)) σ' ∧
    attempts (wire σ') = S (attempts (wire σ)).
Proof.
  intros Hc. step. rewrite Hc.
  destruct (roundTrip net (wire σ) _ req) as [resp | err]; simpl.
  - destruct (readErr (Body resp)); eexists; (split; [reflexivity |]); simpl;
      rewrite !attempts_app; simpl; lia.
  - eexists. split; [reflexivity |]. simpl. rewrite attempts_app. simpl. lia.
Qed.

(** *** [SendGet], one case per exit *)

(** On a live client [SendGet] never panics, touches nothing but the
    wire, and has exactly four exits. *)
Lemma SendGet_cases (net : NetHttp) (σ : state) (p : loc) (c : HttpClient) :
  clients σ !! p = Some c →
  SendGet net (Some p) σ =
    match request_of net σ c with
    | inr err => Ok (None, 500%Z, Some err) σ
    | inl req =>
        let d := seconds (timeout c) in
        let σ1 := set_wire (λ w, w ++ [EvDo d req]) σ in
        match roundTrip net (wire σ) d req with
        | inr err => Ok (None, 500%Z, Some err) σ1
        | inl resp =>
            let σ2 := set_wire (λ w, w ++ [EvClose resp]) σ1 in
            match readErr (Body resp) with
            | Some e => Ok (None, StatusCode resp, Some e) σ2
            | None => Ok (Some (content (Body resp)), StatusCode resp, None) σ2
            end
        end
    end.
Proof.
  intros Hc. unfold request_of, headers_of. step. rewrite Hc.
  destruct (NewRequest net "GET" (url c)) as [req | err]; [| reflexivity].
  rewrite Hc. simpl.
  destruct (headers c) as [a |]; simpl; rewrite Hc;
    (destruct (roundTrip net (wire σ) _ _) as [resp | err]; [| reflexivity]);
    destruct (readErr (Body resp)); reflexivity.
Qed.

(** On the nil pointer [SendGet] panics on its first line. *)
Lemma SendGet_nil (net : NetHttp) (σ : state) :
  SendGet net None σ = Panic NilDereference.
Proof. reflexivity. Qed.

(** The retry count of the client and the contents of [retryableStatus]
    have no bearing on a call: the reply and the wire are the same
    whatever they hold. *)
Lemma SendGet_with_retry (net : NetHttp) (σ : state) (p : loc) (c : HttpClient)
    (n : Z) (rs : gmap Z bool) :
  clients σ !! p = Some c →
  SendGet net (Some p) (with_retry p n rs σ) =
    match SendGet net (Some p) σ with
    | Ok out σ' => Ok out (set_wire (λ _, wire σ') (with_retry p n rs σ))
    | Panic e => Panic e
    end.
Proof.
  intros Hc.
  assert (Hn : clients (with_retry p n rs σ) !! p
               = Some (mkClient (url c) (headers c) n (timeout c))).
  { unfold with_retry. simpl. rewrite lookup_alter_eq, Hc. reflexivity. }
  rewrite (SendGet_cases net _ p _ Hn), (SendGet_cases net σ p c Hc).
  unfold request_of, headers_of. simpl.
  destruct (NewRequest net "GET" (url c)) as [req | err]; [| reflexivity].
  destruct (roundTrip net (wire σ) _ _) as [resp | err]; [| reflexivity].
  destruct (readErr (Body resp)); reflexivity.
Qed.

(** C1, as the code has it: for every live client, whatever its
    [retryCount] and whatever [retryableStatus] holds, [SendGet] puts at
    most one request on the wire: exactly one when the request can be
    constructed and none when it cannot. The reply is [(nil, 500, err)]
    for the construction error, and otherwise the reply of that one round
    trip; client, header maps and [retryableStatus] are left as they
    were. *)
Theorem SendGet_at_most_one_attempt (net : NetHttp) (σ : state) (p : loc)
    (c : HttpClient) :
  clients σ !! p = Some c →
  ∃ out σ',
    SendGet net (Some p) σ = Ok out σ' ∧
    attempts_made net (Some p) σ
      = Some (if request_of net σ c is inl _ then 1 else 0) ∧
    out = match request_of net σ c with
          | inl req => attempt_reply (roundTrip net (wire σ) (seconds (timeout c)) req)
          | inr err => (None, 500%Z, Some err)
          end ∧
    clients σ' = clients σ ∧ maps σ' = maps σ ∧
    retryableStatus σ' = retryableStatus σ ∧
    ∀ n rs, SendGet net (Some p) (with_retry p n rs σ)
            = Ok out (set_wire (λ _, wire σ') (with_retry p n rs σ)).
Proof.
  intros Hc.
  assert (Hblind := λ n rs, SendGet_with_retry net σ p c n rs Hc).
  unfold attempts_made. rewrite (SendGet_cases net σ p c Hc) in *.
  destruct (request_of net σ c) as [req | err]; simpl in *.
  - destruct (roundTrip net (wire σ) _ req) as [resp | err]; simpl in *.
    + destruct (readErr (Body resp)); simpl in *;
        eexists _, _; (split; [reflexivity |]); simpl;
        rewrite !attempts_app; simpl;
        (split; [f_equal; lia |]); repeat (split; [reflexivity |]); exact Hblind.
    + eexists _, _; (split; [reflexivity |]); simpl.
      rewrite !attempts_app; simpl.
      (split; [f_equal; lia |]); repeat (split; [reflexivity |]); exact Hblind.
  - eexists _, _; (split; [reflexivity |]).
    (split; [f_equal; lia |]); repeat (split; [reflexivity |]); exact Hblind.
Qed.

Lemma SendGet_at_most_one_attempt_witness :
  let σ := configured "http://example.test/flaky" in
  clients σ !! 1%positive
    = Some (mkClient "http://example.test/flaky" (Some 1%positive) 5 2) ∧
  ∃ out σ',
    SendGet example_net (Some 1%positive) σ = Ok out σ' ∧
    attempts_made example_net (Some 1%positive) σ = Some 1 ∧
    out = (Some (bytes "busy"), 503%Z, None).
Proof.
  intros σ.
  assert (Hc : clients σ !! 1%positive
               = Some (mkClient "http://example.test/flaky" (Some 1%positive) 5 2))
    by (vm_compute; reflexivity).
  split; [exact Hc |].
  destruct (SendGet_at_most_one_attempt example_net σ 1%positive _ Hc)
    as (out & σ' & Hrun & Hn & Hout & _).
  exists out, σ'. split; [exact Hrun |]. split; [exact Hn |].
  rewrite Hout. vm_compute. reflexivity.
Defined.

(** C1, as the claim has it, fails on a URL that does not parse: the
    client made by [NewHttpClient] and pointed at [":"] gets
    [(nil, 500, err)] from [SendGet] and nothing is put on the wire, so
    the number of attempts is zero, not one. *)
Lemma SendGet_unparsable_url_no_attempt :
  let σ := configured ":" in
  clients σ !! 1%positive = Some (mkClient ":" (Some 1%positive) 5 2) ∧
  SendGet example_net (Some 1%positive) σ
    = Ok (None, 500%Z, Some "missing protocol scheme") σ ∧
  attempts_made example_net (Some 1%positive) σ = Some 0 ∧
  attempts_made example_net (Some 1%positive) σ ≠ Some 1.
Proof.
  intros σ. split; [vm_compute; reflexivity |].
  split; [vm_compute; reflexivity |].
  split; [vm_compute; reflexivity |].
  vm_compute. discriminate.
Qed.

(** C2: when a response arrives and its body is read to the end,
    [SendGet] returns the body, the status code of the response and a
    nil error, whatever the status code is; a 4xx or 5xx status is never
    turned into an error. *)
Theorem SendGet_status_is_not_an_error (net : NetHttp) (σ : state) (p : loc)
    (c : HttpClient) (req : Request) (resp : Response) :
  clients σ !! p = Some c →
  request_of net σ c = inl req →
  roundTrip net (wire σ) (seconds (timeout c)) req = inl resp →
  readErr (Body resp) = None →
  ∃ σ', SendGet net (Some p) σ
        = Ok (Some (content (Body resp)), StatusCode resp, None) σ'.
Proof.
  intros Hc Hreq Hresp Hread.
  rewrite (SendGet_cases net σ p c Hc), Hreq. simpl.
  rewrite Hresp, Hread. eexists. reflexivity.
Qed.

Lemma SendGet_status_is_not_an_error_witness :
  ∃ σ', SendGet example_net (Some 1%positive)
          (configured "http://example.test/missing")
        = Ok (Some (bytes "not found"), 404%Z, None) σ'.
Proof.
  set (σ := configured "http://example.test/missing").
  set (req := setHeaderInNewRequest example_net
                (headers_of σ (mkClient "http://example.test/missing" (Some 1%positive) 5 2))
                (mkRequest "GET" "http://example.test/missing" ∅)).
  apply (SendGet_status_is_not_an_error example_net σ 1%positive
           (mkClient "http://example.test/missing" (Some 1%positive) 5 2)
           req (mkResponse 404 (mkBody (bytes "not found") None))).
  - vm_compute; reflexivity.
  - reflexivity.
  - vm_compute; reflexivity.
  - reflexivity.
Defined.

(** C3: when the request cannot be constructed, or the transport fails
    to deliver a response, [SendGet] returns a nil body, the status code
    500 and that (non-nil) error. *)
Theorem SendGet_failure_is_500 (net : NetHttp) (σ : state) (p : loc)
    (c : HttpClient) (err : error) :
  clients σ !! p = Some c →
  NewRequest net "GET" (url c) = inr err ∨
  (∃ req, request_of net σ c = inl req ∧
          roundTrip net (wire σ) (seconds (timeout c)) req = inr err) →
  ∃ σ', SendGet net (Some p) σ = Ok (None, 500%Z, Some err) σ'.
Proof.
  intros Hc [Hbuild | (req & Hreq & Hdo)];
    rewrite (SendGet_cases net σ p c Hc).
  - unfold request_of. rewrite Hbuild. eexists. reflexivity.
  - rewrite Hreq. simpl. rewrite Hdo. eexists. reflexivity.
Qed.

Lemma SendGet_failure_is_500_witness :
  (∃ σ', SendGet example_net (Some 1%positive) (configured ":")
         = Ok (None, 500%Z, Some "missing protocol scheme") σ') ∧
  (∃ σ', SendGet example_net (Some 1%positive) (configured "http://localhost:1/")
         = Ok (None, 500%Z, Some "connection refused") σ').
Proof.
  split.
  - apply (SendGet_failure_is_500 example_net (configured ":") 1%positive
             (mkClient ":" (Some 1%positive) 5 2)).
    + vm_compute; reflexivity.
    + left. reflexivity.
  - apply (SendGet_failure_is_500 example_net (configured "http://localhost:1/")
             1%positive (mkClient "http://localhost:1/" (Some 1%positive) 5 2)).
    + vm_compute; reflexivity.
    + right. eexists. split; [reflexivity | vm_compute; reflexivity].
Defined.

(** C5: when a response arrives but reading its body fails, [SendGet]
    returns a nil body, the status code of the response (not 500) and
    the read error. *)
Theorem SendGet_read_error_keeps_status (net : NetHttp) (σ : state) (p : loc)
    (c : HttpClient) (req : Request) (resp : Response) (e : error) :
  clients σ !! p = Some c →
  request_of net σ c = inl req →
  roundTrip net (wire σ) (seconds (timeout c)) req = inl resp →
  readErr (Body resp) = Some e →
  ∃ σ', SendGet net (Some p) σ = Ok (None, StatusCode resp, Some e) σ'.
Proof.
  intros Hc Hreq Hresp Hread.
  rewrite (SendGet_cases net σ p c Hc), Hreq. simpl.
  rewrite Hresp, Hread. eexists. reflexivity.
Qed.

Lemma SendGet_read_error_keeps_status_witness :
  ∃ σ', SendGet example_net (Some 1%positive)
          (configured "http://example.test/truncated")
        = Ok (None, 200%Z, Some "unexpected EOF") σ'.
Proof.
  set (σ := configured "http://example.test/truncated").
  set (c := mkClient "http://example.test/truncated" (Some 1%positive) 5 2).
  apply (SendGet_read_error_keeps_status example_net σ 1%positive c
           (setHeaderInNewRequest example_net (headers_of σ c)
              (mkRequest "GET" "http://example.test/truncated" ∅))
           (mkResponse 200 (mkBody (bytes "{") (Some "unexpected EOF")))).
  - vm_compute; reflexivity.
  - reflexivity.
  - vm_compute; reflexivity.
  - reflexivity.
Defined.

(** C6: every call of [SendGet] on a live client ends in exactly one of
    two ways: a body and a status code with a nil error, or a non-nil
    error with a nil body; a non-nil body never comes with a non-nil
    error. *)
Theorem SendGet_success_xor_failure (net : NetHttp) (σ : state) (p : loc)
    (c : HttpClient) :
  clients σ !! p = Some c →
  ∃ out σ',
    SendGet net (Some p) σ = Ok out σ' ∧
    (success out ∨ failure out) ∧
    ¬ (success out ∧ failure out) ∧
    ¬ (is_Some out.1.1 ∧ is_Some out.2).
Proof.
  intros Hc. rewrite (SendGet_cases net σ p c Hc).
  assert (Hfail : ∀ code err, let out : reply := (None, code, Some err) in
            (success out ∨ failure out) ∧ ¬ (success out ∧ failure out) ∧
            ¬ (is_Some out.1.1 ∧ is_Some out.2)).
  { intros code err out. split; [right; exists err; split; reflexivity |].
    split; [intros [(b & Hb & _) _]; discriminate Hb |].
    intros [[b Hb] _]. discriminate Hb. }
  assert (Hsucc : ∀ body code, let out : reply := (Some body, code, None) in
            (success out ∨ failure out) ∧ ¬ (success out ∧ failure out) ∧
            ¬ (is_Some out.1.1 ∧ is_Some out.2)).
  { intros body code out. split; [left; exists body; split; reflexivity |].
    split; [intros [_ (e & Hb & _)]; discriminate Hb |].
    intros [_ [e He]]. discriminate He. }
  destruct (request_of net σ c) as [req | err]; simpl.
  - destruct (roundTrip net (wire σ) _ req) as [resp | err]; simpl.
    + destruct (readErr (Body resp)); eexists _, _;
        (split; [reflexivity |]); [apply Hfail | apply Hsucc].
    + eexists _, _. split; [reflexivity | apply Hfail].
  - eexists _, _. split; [reflexivity | apply Hfail].
Qed.

Lemma SendGet_success_xor_failure_witness :
  ∃ out σ',
    SendGet example_net (Some 1%positive) (configured "https://httpbin.org/get")
      = Ok out σ' ∧
    (success out ∨ failure out) ∧
    ¬ (success out ∧ failure out) ∧
    ¬ (is_Some out.1.1 ∧ is_Some out.2).
Proof.
  apply (SendGet_success_xor_failure example_net
           (configured "https://httpbin.org/get") 1%positive
           (mkClient "https://httpbin.org/get" (Some 1%positive) 5 2)).
  vm_compute; reflexivity.
Defined.

(** *** The builder methods *)

Lemma header_map_Some (σ : state) (p : loc) (kv : gmap string string) :
  header_map σ (Some p) = Some kv ↔
  ∃ c a, clients σ !! p = Some c ∧ headers c = Some a ∧ maps σ !! a = Some kv.
Proof.
  unfold header_map. simpl. split.
  - destruct (clients σ !! p) as [c |] eqn:Hc; simpl; [| discriminate].
    destruct (headers c) as [a |] eqn:Ha; simpl; [| discriminate].
    intros Hm. exists c, a. auto.
  - intros (c & a & -> & Ha & Hm). simpl. rewrite Ha. exact Hm.
Qed.

(** [m[key] = value] on a live map replaces the map's contents in
    place. *)
Lemma map_assign_live (σ : state) (a : loc) (kv : gmap string string)
    (key value : string) :
  maps σ !! a = Some kv →
  map_assign (Some a) key value σ
    = Ok () (set_maps <[a := <[key := value]> kv]> σ).
Proof. intros Hm. unfold map_assign. rewrite Hm. reflexivity. Qed.

Lemma SetUrl_live (σ : state) (p : loc) (c : HttpClient) (target : string) :
  clients σ !! p = Some c →
  SetUrl (Some p) target σ
    = Ok (Some p)
         (set_clients <[p := mkClient target (headers c) (retryCount c) (timeout c)]> σ).
Proof. intros Hc. step. rewrite Hc. simpl. rewrite Hc. reflexivity. Qed.

Lemma SetHeader_live (σ : state) (p a : loc) (c : HttpClient)
    (kv : gmap string string) (key value : string) :
  clients σ !! p = Some c → headers c = Some a → maps σ !! a = Some kv →
  SetHeader (Some p) key value σ
    = Ok (Some p) (set_maps <[a := <[key := value]> kv]> σ).
Proof. intros Hc Ha Hm. step. rewrite Hc, Ha, Hm. reflexivity. Qed.

Lemma SetBearerToken_live (σ : state) (p a : loc) (c : HttpClient)
    (kv : gmap string string) (token : string) :
  clients σ !! p = Some c → headers c = Some a → maps σ !! a = Some kv →
  SetBearerToken (Some p) token σ
    = Ok (Some p)
         (set_maps <[a := <["Autorization" := "Bearer " +:+ token]> kv]> σ).
Proof. intros Hc Ha Hm. step. rewrite Hc, Ha, Hm. reflexivity. Qed.

(** [SetBearerToken] is [SetHeader] at the key the source spells
    ["Autorization"]. *)
Lemma SetBearerToken_SetHeader (h : option loc) (token : string) (σ : state) :
  SetBearerToken h token σ = SetHeader h "Autorization" ("Bearer " +:+ token) σ.
Proof. reflexivity. Qed.

(** Writing a header of a live client changes that one map and nothing
    else. *)
Lemma header_map_assign (σ : state) (p a : loc) (c : HttpClient)
    (kv kv' : gmap string string) :
  clients σ !! p = Some c → headers c = Some a →
  header_map (set_maps <[a := kv']> σ) (Some p) = Some kv'.
Proof.
  intros Hc Ha. apply header_map_Some. exists c, a.
  simpl. rewrite lookup_insert_eq. auto.
Qed.

(** Setting a key twice in a row is setting it once to the second value,
    panics included. *)
Lemma SetHeader_twice (h : option loc) (key v1 v2 : string) (σ : state) :
  (h' ← SetHeader h key v1; SetHeader h' key v2) σ = SetHeader h key v2 σ.
Proof.
  destruct h as [p |]; [| reflexivity]. step.
  destruct (clients σ !! p) as [c |] eqn:Hc; simpl; [| reflexivity].
  destruct (headers c) as [a |] eqn:Ha; simpl; [| reflexivity].
  destruct (maps σ !! a) as [kv |] eqn:Hm; simpl; [| reflexivity].
  rewrite Hc. simpl. rewrite Ha, lookup_insert_eq. simpl.
  unfold set_maps. simpl. rewrite insert_insert_eq, insert_insert_eq.
  reflexivity.
Qed.

(** C7: on a client with a live header map, [SetHeader(k, v1)] followed
    by [SetHeader(k, v2)] ends in the very state [SetHeader(k, v2)] alone
    ends in, and in it the map holds [v2] at [k]: a later write to a key
    overwrites the earlier one. *)
Theorem SetHeader_last_write_wins (σ : state) (p : loc)
    (kv : gmap string string) (key v1 v2 : string) :
  header_map σ (Some p) = Some kv →
  ∃ σ',
    (h ← SetHeader (Some p) key v1; SetHeader h key v2) σ = Ok (Some p) σ' ∧
    SetHeader (Some p) key v2 σ = Ok (Some p) σ' ∧
    header_map σ' (Some p) = Some (<[key := v2]> kv) ∧
    (default ∅ (header_map σ' (Some p))) !! key = Some v2.
Proof.
  intros Hwf. apply header_map_Some in Hwf as (c & a & Hc & Ha & Hm).
  eexists. rewrite SetHeader_twice, (SetHeader_live σ p a c kv key v2 Hc Ha Hm).
  split; [reflexivity |]. split; [reflexivity |].
  rewrite (header_map_assign σ p a c kv _ Hc Ha). simpl.
  split; [reflexivity | apply lookup_insert_eq].
Qed.

Lemma SetHeader_last_write_wins_witness :
  let σ := configured "https://httpbin.org/get" in
  ∃ σ',
    (h ← SetHeader (Some 1%positive) "test" "a"; SetHeader h "test" "b") σ
      = Ok (Some 1%positive) σ' ∧
    SetHeader (Some 1%positive) "test" "b" σ = Ok (Some 1%positive) σ' ∧
    (default ∅ (header_map σ' (Some 1%positive))) !! "test" = Some "b".
Proof.
  intros σ.
  assert (Hwf : header_map σ (Some 1%positive)
                = Some (<["test2" := "val2"]> (<["test" := "val1"]>
                          (<["Content-Type" := "application/json"]> ∅))))
    by (vm_compute; reflexivity).
  destruct (SetHeader_last_write_wins σ 1%positive _ "test" "a" "b" Hwf)
    as (σ' & Hchain & Hone & _ & Hlast).
  exists σ'. split; [exact Hchain |]. split; [exact Hone | exact Hlast].
Defined.

(** [NewHttpClient], run: one new map with the default header, one new
    struct pointing to it. *)
Lemma NewHttpClient_run (ops : OptionsHttpclient) (σ : state) :
  let p := fresh (dom (clients σ)) in
  let m := fresh (dom (maps σ)) in
  NewHttpClient ops σ
    = Ok (Some p)
         (mkState
            (<[p := mkClient "" (Some m) (RetryCount ops) (Timeout ops)]> (clients σ))
            (<[m := {["Content-Type" := "application/json"]}]> (maps σ))
            (retryableStatus σ) (wire σ)).
Proof.
  intros p m. step. rewrite lookup_insert_eq. simpl.
  unfold set_clients, set_maps. simpl.
  rewrite insert_insert_eq, insert_empty. reflexivity.
Qed.

(** The client [NewHttpClient] returns has a live header map holding the
    default header. *)
Lemma NewHttpClient_fresh_map (ops : OptionsHttpclient) (σ : state) :
  ∃ p σ',
    NewHttpClient ops σ = Ok (Some p) σ' ∧
    header_map σ' (Some p) = Some {["Content-Type" := "application/json"]}.
Proof.
  eexists _, _. split; [apply NewHttpClient_run |].
  apply header_map_Some. eexists _, _.
  cbn [clients maps headers]. rewrite !lookup_insert_eq. auto.
Qed.

(** C8: for every options value and in every state, [NewHttpClient]
    returns a pointer to a client that did not exist before, whose header
    map is a new map holding exactly ["Content-Type"] with value
    ["application/json"], whose [retryCount] and [timeout] are those of
    the options and whose URL is empty; what existed before is
    untouched. *)
Theorem NewHttpClient_fresh (ops : OptionsHttpclient) (σ : state) :
  ∃ p m σ',
    NewHttpClient ops σ = Ok (Some p) σ' ∧
    (p ∉ dom (clients σ)) ∧ (m ∉ dom (maps σ)) ∧
    clients σ'
      = <[p := mkClient "" (Some m) (RetryCount ops) (Timeout ops)]> (clients σ) ∧
    maps σ' = <[m := {["Content-Type" := "application/json"]}]> (maps σ) ∧
    header_map σ' (Some p) = Some {["Content-Type" := "application/json"]} ∧
    (default ∅ (header_map σ' (Some p))) !! "Content-Type"
      = Some "application/json" ∧
    retryableStatus σ' = retryableStatus σ ∧ wire σ' = wire σ.
Proof.
  exists (fresh (dom (clients σ))), (fresh (dom (maps σ))).
  eexists. split; [apply NewHttpClient_run |].
  cbn [clients maps retryableStatus wire].
  split; [apply is_fresh |]. split; [apply is_fresh |].
  split; [reflexivity |]. split; [reflexivity |].
  match goal with
  | |- ?hm = _ ∧ _ =>
      assert (Hmap : hm = Some {["Content-Type" := "application/json"]})
  end.
  { apply header_map_Some. eexists _, _.
    cbn [clients maps headers]. rewrite !lookup_insert_eq. auto. }
  rewrite Hmap. cbn [default].
  split; [reflexivity |]. split; [apply lookup_singleton_eq |].
  split; reflexivity.
Qed.

(** One builder call on a live client: the receiver comes back, no
    struct and no map is created, and the change is made in the
    receiver's own struct or map. *)
Lemma call_live (b : builder) (σ : state) (p : loc) (kv : gmap string string) :
  header_map σ (Some p) = Some kv →
  ∃ σ',
    call b (Some p) σ = Ok (Some p) σ' ∧
    dom (clients σ') = dom (clients σ) ∧
    dom (maps σ') = dom (maps σ) ∧
    match b with
    | BSetUrl target =>
        url <$> clients σ' !! p = Some target ∧
        header_map σ' (Some p) = Some kv
    | BSetHeader key value =>
        clients σ' = clients σ ∧
        header_map σ' (Some p) = Some (<[key := value]> kv)
    | BSetBearerToken token =>
        clients σ' = clients σ ∧
        header_map σ' (Some p)
          = Some (<["Autorization" := "Bearer " +:+ token]> kv)
    end.
Proof.
  intros Hwf. apply header_map_Some in Hwf as (c & a & Hc & Ha & Hm).
  assert (Hp : is_Some (clients σ !! p)) by eauto.
  assert (Hma : is_Some (maps σ !! a)) by eauto.
  destruct b as [target | key value | token]; cbn [call].
  - rewrite (SetUrl_live σ p c target Hc). eexists. split; [reflexivity |].
    cbn [clients maps set_clients].
    split; [apply dom_insert_lookup_L, Hp |]. split; [reflexivity |].
    rewrite lookup_insert_eq. split; [reflexivity |].
    apply header_map_Some. eexists _, a. cbn [clients maps set_clients].
    rewrite lookup_insert_eq. auto.
  - rewrite (SetHeader_live σ p a c kv key value Hc Ha Hm).
    eexists. split; [reflexivity |]. cbn [clients maps set_maps].
    split; [reflexivity |]. split; [apply dom_insert_lookup_L, Hma |].
    split; [reflexivity |].
    apply (header_map_assign σ p a c kv _ Hc Ha).
  - rewrite (SetBearerToken_live σ p a c kv token Hc Ha Hm).
    eexists. split; [reflexivity |]. cbn [clients maps set_maps].
    split; [reflexivity |]. split; [apply dom_insert_lookup_L, Hma |].
    split; [reflexivity |].
    apply (header_map_assign σ p a c kv _ Hc Ha).
Qed.

(** A whole chain on a live client: the pointer at the end is the one
    at the start, the heaps hold the same addresses, and the client is
    still live. *)
Lemma chain_live (bs : list builder) (p : loc) :
  ∀ (σ : state) (kv : gmap string string),
  header_map σ (Some p) = Some kv →
  ∃ σ',
    chain bs (Some p) σ = Ok (Some p) σ' ∧
    dom (clients σ') = dom (clients σ) ∧
    dom (maps σ') = dom (maps σ) ∧
    is_Some (header_map σ' (Some p)).
Proof.
  induction bs as [| b bs IH]; intros σ kv Hwf.
  - exists σ. repeat (split; [reflexivity |]). eauto.
  - destruct (call_live b σ p kv Hwf) as (σ1 & Hcall & Hdc & Hdm & Heff).
    assert (Hwf1 : ∃ kv1, header_map σ1 (Some p) = Some kv1).
    { destruct b; destruct Heff as [_ Hh]; eauto. }
    destruct Hwf1 as [kv1 Hwf1].
    destruct (IH σ1 kv1 Hwf1) as (σ2 & Hrest & Hdc2 & Hdm2 & Hlive).
    exists σ2. split.
    + cbn [chain]. unfold mbind, M_bind. rewrite Hcall. exact Hrest.
    + repeat split; [congruence | congruence | exact Hlive].
Qed.

(** Every client the package hands out, however it is then configured,
    is live: the hypothesis of the statements below holds of it. *)
Lemma NewHttpClient_chain_live (ops : OptionsHttpclient) (bs : list builder)
    (σ : state) :
  ∃ p σ',
    (h ← NewHttpClient ops; chain bs h) σ = Ok (Some p) σ' ∧
    is_Some (header_map σ' (Some p)).
Proof.
  destruct (NewHttpClient_fresh_map ops σ) as (p & σ1 & Hnew & Hmap).
  destruct (chain_live bs p σ1 _ Hmap) as (σ2 & Hchain & _ & _ & Hlive).
  exists p, σ2. split; [| exact Hlive].
  unfold mbind, M_bind. rewrite Hnew. exact Hchain.
Qed.

(** C9: on a client with a live header map, each of [SetUrl],
    [SetHeader] and [SetBearerToken] returns the pointer it was invoked
    on and makes its change in place (no struct and no map is
    allocated), so a fluent chain of any length ends with the same
    pointer, the same set of allocated objects and a client that is still
    live. *)
Theorem builders_return_receiver (σ : state) (p : loc)
    (kv : gmap string string) (b : builder) (bs : list builder) :
  header_map σ (Some p) = Some kv →
  (∃ σ',
     call b (Some p) σ = Ok (Some p) σ' ∧
     dom (clients σ') = dom (clients σ) ∧
     dom (maps σ') = dom (maps σ) ∧
     match b with
     | BSetUrl target =>
         url <$> clients σ' !! p = Some target ∧
         header_map σ' (Some p) = Some kv
     | BSetHeader key value =>
         clients σ' = clients σ ∧
         header_map σ' (Some p) = Some (<[key := value]> kv)
     | BSetBearerToken token =>
         clients σ' = clients σ ∧
         header_map σ' (Some p)
           = Some (<["Autorization" := "Bearer " +:+ token]> kv)
     end) ∧
  (∃ σ',
     chain bs (Some p) σ = Ok (Some p) σ' ∧
     dom (clients σ') = dom (clients σ) ∧
     dom (maps σ') = dom (maps σ) ∧
     is_Some (header_map σ' (Some p))).
Proof.
  intros Hwf. split; [exact (call_live b σ p kv Hwf) |].
  exact (chain_live bs p σ kv Hwf).
Qed.

Lemma builders_return_receiver_witness :
  let σ := exec (NewHttpClient (mkOptions 5 2)) init in
  ∃ σ',
    chain [BSetUrl "https://httpbin.org/get"; BSetHeader "test" "val1";
           BSetHeader "test2" "val2"; BSetBearerToken "abc"]
      (Some 1%positive) σ = Ok (Some 1%positive) σ' ∧
    dom (clients σ') = dom (clients σ) ∧
    dom (maps σ') = dom (maps σ) ∧
    is_Some (header_map σ' (Some 1%positive)).
Proof.
  intros σ.
  assert (Hwf : header_map σ (Some 1%positive)
                = Some (<["Content-Type" := "application/json"]> ∅))
    by (vm_compute; reflexivity).
  exact (proj2 (builders_return_receiver σ 1%positive _ (BSetUrl "")
                  [BSetUrl "https://httpbin.org/get"; BSetHeader "test" "val1";
                   BSetHeader "test2" "val2"; BSetBearerToken "abc"] Hwf)).
Defined.

(** On the nil pointer every builder panics instead of returning. *)
Lemma call_nil (b : builder) (σ : state) :
  call b None σ = Panic NilDereference.
Proof. destruct b; reflexivity. Qed.

(** C4: [SetBearerToken("abc")] on a new client leaves no
    ["Authorization"] entry in the header map; the value ["Bearer abc"]
    is stored under the key ["Autorization"]. *)
Theorem SetBearerToken_no_Authorization :
  let σ := exec (h ← NewHttpClient (mkOptions 5 2); SetBearerToken h "abc") init in
  ∃ kv,
    header_map σ (Some 1%positive) = Some kv ∧
    kv !! "Authorization" = None ∧
    kv !! "Autorization" = Some "Bearer abc".
Proof.
  intros σ.
  exists (<["Autorization" := "Bearer abc"]>
            (<["Content-Type" := "application/json"]> ∅)).
  split; [vm_compute; reflexivity |].
  split; [vm_compute; reflexivity | apply lookup_insert_eq].
Qed.

(** For every token, the key written is ["Autorization"], and the
    ["Authorization"] entry is whatever it was before the call. *)
Lemma SetBearerToken_key (σ : state) (p : loc) (kv : gmap string string)
    (token : string) :
  header_map σ (Some p) = Some kv →
  ∃ σ' kv',
    SetBearerToken (Some p) token σ = Ok (Some p) σ' ∧
    header_map σ' (Some p) = Some kv' ∧
    kv' !! "Autorization" = Some ("Bearer " +:+ token) ∧
    kv' !! "Authorization" = kv !! "Authorization".
Proof.
  intros Hwf.
  destruct (call_live (BSetBearerToken token) σ p kv Hwf)
    as (σ' & Hcall & _ & _ & _ & Hmap).
  exists σ', (<["Autorization" := "Bearer " +:+ token]> kv).
  split; [exact Hcall |]. split; [exact Hmap |].
  split; [apply lookup_insert_eq |].
  apply lookup_insert_ne. discriminate.
Qed.

(** *** The demo program *)

(** [main] against an endpoint that answers 200 with body ["ok"]. *)
Example main_httpbin :
  ∃ σ', (h ← configure "https://httpbin.org/get"; SendGet example_net h) init
        = Ok (Some (bytes "ok"), 200%Z, None) σ'.
Proof. eexists. vm_compute. reflexivity. Qed.

(** The empty URL parses, and then fails in the transport. *)
Example main_empty_url :
  ∃ σ', (h ← configure ""; SendGet example_net h) init
        = Ok (None, 500%Z, Some "unsupported protocol scheme") σ'.
Proof. eexists. vm_compute. reflexivity. Qed.

(** A timeout of two seconds, in nanoseconds; and one that wraps. *)
Example seconds_2 : seconds 2 = 2000000000%Z.
Proof. reflexivity. Qed.

Example seconds_wraps : seconds 9223372037 = (-9223372036709551616)%Z.
Proof. reflexivity. Qed.

End httpclient_facts.

(* ===================================================================== *)
(** ** More of [errx]: the two tables                                     *)
(* ===================================================================== *)

Section errx_table_facts.
Import errx apperror.

(** X1: Going from a status to a code and back gives the status again
    exactly for the six statuses [ToHTTPCode] can return; every other
    status, the 2xx and 3xx ones and the negative ones included, comes
    back as 400 or 500. *)
Theorem ToHTTPCode_StatusToCode_fixed (s : Z) :
  (ToHTTPCode (StatusToCode s) = s ↔ s ∈ statuses) ∧
  ToHTTPCode (StatusToCode s)
    = (if (500 <=? s)%Z then 500
       else if bool_decide (s ∈ [401; 403; 404; 409]%Z) then s
       else 400)%Z.
Proof.
  unfold StatusToCode, statuses. split.
  - rewrite !elem_of_cons, elem_of_nil.
    destruct (Z.leb_spec 500 s) as [Hge | Hlt]; cbn.
    + split; [intros <-; tauto | intros H; lia].
    + destruct (Z.eqb_spec s 401) as [-> | N1]; [cbn; tauto |].
      destruct (Z.eqb_spec s 403) as [-> | N3]; [cbn; tauto |].
      destruct (Z.eqb_spec s 404) as [-> | N4]; [cbn; tauto |].
      destruct (Z.eqb_spec s 409) as [-> | N9]; [cbn; tauto |].
      cbn. split; [intros <-; tauto | intros H; lia].
  - destruct (Z.leb_spec 500 s) as [Hge | Hlt]; [reflexivity |].
    destruct (Z.eqb_spec s 401) as [-> | N1]; [reflexivity |].
    destruct (Z.eqb_spec s 403) as [-> | N3]; [reflexivity |].
    destruct (Z.eqb_spec s 404) as [-> | N4]; [reflexivity |].
    destruct (Z.eqb_spec s 409) as [-> | N9]; [reflexivity |].
    rewrite bool_decide_eq_false_2; [reflexivity |].
    rewrite !elem_of_cons, elem_of_nil. lia.
Qed.

(** X2: Whatever they are given, [StatusToCode] returns one of the six
    declared codes and [ToHTTPCode] one of six statuses; hence
    normalising a status through the tables a second time changes
    nothing. *)
Theorem tables_ranges (s : Z) (c : errx.Code) :
  StatusToCode s ∈ codes ∧
  ToHTTPCode c ∈ statuses ∧
  StatusToCode (ToHTTPCode (StatusToCode s)) = StatusToCode s.
Proof.
  assert (Hcode : StatusToCode s ∈ codes).
  { unfold StatusToCode, codes.
    repeat (match goal with |- context [if ?b then _ else _] => destruct b end);
      repeat constructor. }
  split; [exact Hcode |]. split.
  - unfold ToHTTPCode, statuses.
    repeat (match goal with |- context [if ?b then _ else _] => destruct b end);
      repeat constructor.
  - revert Hcode. generalize (StatusToCode s). intros k. unfold codes.
    rewrite !elem_of_cons, elem_of_nil.
    intros Hk.
    repeat (destruct Hk as [Hk | Hk]; [rewrite Hk; reflexivity |]).
    destruct Hk.
Qed.

End errx_table_facts.

(* ===================================================================== *)
(** ** More of [errx]: [AppError]                                         *)
(* ===================================================================== *)

Section apperror_facts.
Import errx apperror.
Context {any : Type}.
Implicit Types (σ : heap any) (p q m : loc) (a : AppError) (ev : error).

Ltac run :=
  unfold WithCode, WithCaller, WithDetails, Unwrap, GetCode, GetStatusCode,
    GetCaller, GetDetails, New, SetSeparator, load, store, alloc,
    make_details, entries, assign, mbind, E_bind, mret, E_ret; simpl.

Lemma load_live σ p a :
  errs σ !! p = Some a → load (Some p) σ = Done a σ.
Proof. intros H. unfold load. simpl. rewrite H. reflexivity. Qed.

Lemma store_live σ p a a' :
  errs σ !! p = Some a → store (Some p) a' σ = Done () (set_errs <[p := a']> σ).
Proof. intros H. unfold store. rewrite H. reflexivity. Qed.

Lemma bind_Done {A B} (f : A → E any B) (c : E any A) σ x σ' :
  c σ = Done x σ' → (c ≫= f) σ = f x σ'.
Proof. intros H. unfold mbind, E_bind. rewrite H. reflexivity. Qed.

(** *** Codes and statuses of errors *)

(** X3: The status of an error is the status of its code: [GetStatusCode] is
    [ToHTTPCode] after [GetCode], on every error value and in every
    state, the panic on a nil [*AppError] included. *)
Theorem GetStatusCode_GetCode (err : option error) σ :
  GetStatusCode err σ = (c ← GetCode err; mret (ToHTTPCode c)) σ.
Proof.
  run. destruct err as [ev |]; simpl; [| reflexivity].
  destruct (errors_As ev) as [[p |] |]; simpl; try reflexivity.
  destruct (errs σ !! p) as [a |]; [| reflexivity].
  destruct (String.eqb (Code a) ""); reflexivity.
Qed.

(** X4: [WithCode] keeps the first non-empty code: on an error without a
    code, [WithCode(c1).WithCode(c2)] with [c1] non-empty is
    [WithCode(c1)], and [GetCode] then reports [c1]. *)
Theorem WithCode_first_wins σ p a (c1 c2 : errx.Code) :
  errs σ !! p = Some a → Code a = "" → c1 ≠ "" →
  ∃ σ',
    (e ← WithCode (Some p) c1; WithCode e c2) σ = Done (Some p) σ' ∧
    WithCode (Some p) c1 σ = Done (Some p) σ' ∧
    Code <$> errs σ' !! p = Some c1 ∧
    GetCode (Some (App (Some p))) σ' = Done c1 σ'.
Proof.
  intros Ha Hempty Hc1.
  assert (Hneq : String.eqb c1 "" = false) by (apply String.eqb_neq; exact Hc1).
  eexists. run. rewrite Ha. simpl. rewrite Hempty. simpl. rewrite Ha.
  simpl. rewrite lookup_insert_eq. simpl. rewrite Hneq. simpl.
  split; [reflexivity |]. split; [reflexivity |].
  cbn [errs set_errs]. rewrite !lookup_insert_eq. simpl. rewrite Hneq.
  split; reflexivity.
Qed.

(** *** The two loops over [Details] *)

Lemma entries_live σ m (own : gmap string any) :
  details σ !! m = Some own → entries (Some m) σ = Done own σ.
Proof. intros H. unfold entries. simpl. rewrite H. reflexivity. Qed.

Lemma assign_live σ m (own : gmap string any) k v :
  details σ !! m = Some own →
  assign (Some m) k v σ = Done () (set_details <[m := <[k := v]> own]> σ).
Proof. intros H. unfold assign. rewrite H. reflexivity. Qed.

Lemma set_details_twice σ m (x y : gmap string any) :
  set_details <[m := x]> (set_details <[m := y]> σ) = set_details <[m := x]> σ.
Proof. unfold set_details. simpl. rewrite insert_insert_eq. reflexivity. Qed.

Lemma set_details_id σ m (x : gmap string any) :
  details σ !! m = Some x → set_details <[m := x]> σ = σ.
Proof.
  intros H. destruct σ as [es ds sep]. unfold set_details. simpl in *.
  rewrite (insert_id ds m x H). reflexivity.
Qed.


(** The loop of [WithError] leaves in the map what it held over the
    given entries. *)
Lemma inherit_spec (kvs : list (string * any)) p a m :
  ∀ σ (own : gmap string any),
  errs σ !! p = Some a → Details a = Some m → details σ !! m = Some own →
  inherit (Some p) kvs σ
    = Done () (set_details <[m := own ∪ list_to_map kvs]> σ).
Proof.
  induction kvs as [| [k v] rest IH]; intros σ own Ha Hm Hown.
  - simpl. rewrite (right_id_L ∅ (∪)), (set_details_id σ m own Hown).
    reflexivity.
  - cbn [inherit]. rewrite (bind_Done _ _ σ a σ (load_live σ p a Ha)).
    rewrite Hm, (bind_Done _ _ σ own σ (entries_live σ m own Hown)).
    destruct (own !! k) as [x |] eqn:Hk.
    + rewrite (bind_Done _ (mret ()) σ () σ eq_refl).
      rewrite (IH σ own Ha Hm Hown). do 3 f_equal.
      cbn. apply map_eq. intros j. rewrite !lookup_union.
      destruct (decide (j = k)) as [-> | Hne].
      * rewrite Hk, lookup_insert_eq. destruct (list_to_map rest !! k); reflexivity.
      * rewrite lookup_insert_ne by congruence. reflexivity.
    + rewrite (bind_Done _ _ σ () _ (assign_live σ m own k v Hown)).
      rewrite (IH (set_details <[m := <[k := v]> own]> σ) (<[k := v]> own)
                 Ha Hm); [| apply lookup_insert_eq].
      rewrite set_details_twice. do 3 f_equal.
      cbn. rewrite <- insert_union_l. apply insert_union_r. exact Hk.
Qed.

(** *** [WithDetails] *)


(** *** [WithError] *)

Lemma set_errs_id σ p a :
  errs σ !! p = Some a → set_errs <[p := a]> σ = σ.
Proof.
  intros H. destruct σ as [es ds sep]. unfold set_errs. simpl in *.
  rewrite (insert_id es p a H). reflexivity.
Qed.

Lemma set_errs_twice σ p a a' :
  set_errs <[p := a']> (set_errs <[p := a]> σ) = set_errs <[p := a']> σ.
Proof. unfold set_errs. simpl. rewrite insert_insert_eq. reflexivity. Qed.

(** The first [if] of [WithError]: the code is inherited where there is
    none. *)
Lemma inherit_code σ p q a i :
  errs σ !! p = Some a → errs σ !! q = Some i →
  (if String.eqb (Code a) "" then
     i' ← load (Some q);
     if negb (String.eqb (Code i') "") then
       store (Some p) (mkAppError (Message a) (Code i') (Err a) (Caller a)
                         (Details a))
     else mret ()
   else mret ()) σ
  = Done () (set_errs
               <[p := mkAppError (Message a)
                        (if String.eqb (Code a) "" then Code i else Code a)
                        (Err a) (Caller a) (Details a)]> σ).
Proof.
  intros Ha Hi. destruct (String.eqb_spec (Code a) "") as [He | Hne].
  - rewrite (bind_Done _ _ σ i σ (load_live σ q i Hi)).
    destruct (String.eqb_spec (Code i) "") as [Hie | Hine]; simpl.
    + rewrite Hie, <- He. rewrite set_errs_id; [reflexivity |].
      rewrite Ha. destruct a; reflexivity.
    + apply (store_live σ p a _ Ha).
  - rewrite set_errs_id; [reflexivity |]. rewrite Ha. destruct a; reflexivity.
Qed.

(** The second [if]: the same for the caller. *)
Lemma inherit_caller σ p q a i :
  errs σ !! p = Some a → errs σ !! q = Some i →
  (if String.eqb (Caller a) "" then
     i' ← load (Some q);
     if negb (String.eqb (Caller i') "") then
       store (Some p) (mkAppError (Message a) (Code a) (Err a) (Caller i')
                         (Details a))
     else mret ()
   else mret ()) σ
  = Done () (set_errs
               <[p := mkAppError (Message a) (Code a) (Err a)
                        (if String.eqb (Caller a) "" then Caller i else Caller a)
                        (Details a)]> σ).
Proof.
  intros Ha Hi. destruct (String.eqb_spec (Caller a) "") as [He | Hne].
  - rewrite (bind_Done _ _ σ i σ (load_live σ q i Hi)).
    destruct (String.eqb_spec (Caller i) "") as [Hie | Hine]; simpl.
    + rewrite Hie, <- He. rewrite set_errs_id; [reflexivity |].
      rewrite Ha. destruct a; reflexivity.
    + apply (store_live σ p a _ Ha).
  - rewrite set_errs_id; [reflexivity |]. rewrite Ha. destruct a; reflexivity.
Qed.

(** The [Details] block of [WithError], for an error [p] and an inner
    error [q] that holds the entries [kvs]. *)
Lemma inherit_details σ p q a i (kvs : gmap string any) :
  errs σ !! p = Some a → errs σ !! q = Some i →
  default ∅ (Details i ≫= (details σ !!.)) = kvs →
  (∀ m, Details a = Some m → is_Some (details σ !! m)) →
  ∃ σ' md,
    (i' ← load (Some q);
     kvs' ← entries (Details i');
     if (0 <? size kvs')%nat then
       a' ← load (Some p);
       _ ← match Details a' with
           | None =>
               m ← make_details;
               store (Some p) (mkAppError (Message a') (Code a') (Err a')
                                 (Caller a') m)
           | Some _ => mret ()
           end;
       inherit (Some p) (map_to_list kvs')
     else mret ()) σ = Done () σ' ∧
    errs σ' = <[p := mkAppError (Message a) (Code a) (Err a) (Caller a) md]>
                (errs σ) ∧
    default ∅ (md ≫= (details σ' !!.))
      = default ∅ (Details a ≫= (details σ !!.)) ∪ kvs ∧
    (∀ m, md ≠ Some m → details σ' !! m = details σ !! m) ∧
    (md = Details a ∨
     Details a = None ∧ ∃ m, md = Some m ∧ details σ !! m = None) ∧
    separator σ' = separator σ.
Proof.
  intros Ha Hi Hkvs Hlive.
  rewrite (bind_Done _ _ σ i σ (load_live σ q i Hi)).
  erewrite bind_Done; [| reflexivity]. rewrite Hkvs.
  assert (Hsame : errs σ = <[p := mkAppError (Message a) (Code a) (Err a)
                                    (Caller a) (Details a)]> (errs σ)).
  { rewrite insert_id; [reflexivity |]. rewrite Ha. destruct a; reflexivity. }
  destruct (0 <? size kvs)%nat eqn:Hsize.
  - rewrite (bind_Done _ _ σ a σ (load_live σ p a Ha)).
    destruct (Details a) as [m0 |] eqn:Hm.
    + destruct (Hlive m0 eq_refl) as [own Hown].
      rewrite (bind_Done _ (mret ()) σ () σ eq_refl).
      rewrite (inherit_spec _ p a m0 σ own Ha Hm Hown), list_to_map_to_list.
      eexists _, (Some m0). split; [reflexivity |].
      cbn [errs details separator set_details].
      split; [exact Hsame |]. simpl. rewrite lookup_insert_eq, Hown. simpl.
      split; [reflexivity |].
      split; [intros m Hne; apply lookup_insert_ne; congruence |].
      split; [left; reflexivity | reflexivity].
    + set (m := fresh (dom (details σ))).
      set (a' := mkAppError (Message a) (Code a) (Err a) (Caller a) (Some m)).
      set (σ2 := set_errs <[p := a']> (set_details <[m := ∅]> σ)).
      assert (Hfresh : details σ !! m = None)
        by (apply not_elem_of_dom, is_fresh).
      erewrite (bind_Done _ _ σ () σ2);
        [| unfold make_details; erewrite bind_Done by reflexivity;
           apply (store_live _ p a); exact Ha].
      rewrite (inherit_spec _ p a' m σ2 ∅);
        [| apply lookup_insert_eq | reflexivity | apply lookup_insert_eq].
      rewrite list_to_map_to_list, (left_id_L ∅ (∪)).
      eexists _, (Some m). split; [reflexivity |]. unfold σ2.
      cbn [errs details separator set_details set_errs].
      split; [reflexivity |]. simpl. rewrite lookup_insert_eq. simpl.
      rewrite (left_id_L ∅ (∪)).
      split; [reflexivity |].
      split; [| split; [right; split; [reflexivity |]; exists m; auto
                       | reflexivity]].
      intros m1 Hne.
      rewrite !lookup_insert_ne by congruence. reflexivity.
  - apply Nat.ltb_ge in Hsize.
    assert (Hempty : kvs = ∅) by (apply map_size_empty_iff; lia).
    exists σ, (Details a). split; [reflexivity |].
    split; [exact Hsame |]. rewrite Hempty, (right_id_L ∅ (∪)).
    split; [reflexivity |]. split; [reflexivity |].
    split; [left; reflexivity | reflexivity].
Qed.

(** [WithError] around an error in which [errors.As] finds the live
    [AppError] [q] (which may be [p] itself). *)
Lemma WithError_app σ p q a i ev :
  errs σ !! p = Some a → errors_As ev = Some (Some q) →
  errs σ !! q = Some i →
  (∀ m, Details a = Some m → is_Some (details σ !! m)) →
  ∃ σ' md,
    WithError (Some p) (Some ev) σ = Done (Some p) σ' ∧
    errs σ' = <[p := mkAppError (Message a)
                       (if String.eqb (Code a) "" then Code i else Code a)
                       (Some ev)
                       (if String.eqb (Caller a) "" then Caller i else Caller a)
                       md]> (errs σ) ∧
    default ∅ (md ≫= (details σ' !!.))
      = default ∅ (Details a ≫= (details σ !!.))
        ∪ default ∅ (Details i ≫= (details σ !!.)) ∧
    (∀ m, md ≠ Some m → details σ' !! m = details σ !! m) ∧
    (md = Details a ∨
     Details a = None ∧ ∃ m, md = Some m ∧ details σ !! m = None) ∧
    separator σ' = separator σ.
Proof.
  intros Ha Has Hi Hlive. unfold WithError. rewrite Has.
  set (a1 := mkAppError (Message a)
               (if String.eqb (Code a) "" then Code i else Code a)
               (Err a) (Caller a) (Details a)).
  set (a2 := mkAppError (Message a)
               (if String.eqb (Code a) "" then Code i else Code a)
               (Err a)
               (if String.eqb (Caller a) "" then Caller i else Caller a)
               (Details a)).
  set (σ1 := set_errs <[p := a1]> σ).
  set (σ2 := set_errs <[p := a2]> σ).
  (* the inner struct, as the later reads find it *)
  assert (Hi1 : ∃ i1, errs σ1 !! q = Some i1 ∧ Caller i1 = Caller i ∧
                      Details i1 = Details i).
  { unfold σ1. cbn [errs set_errs]. destruct (decide (q = p)) as [-> | Hne].
    - rewrite lookup_insert_eq. exists a1. split; [reflexivity |].
      assert (i = a) by congruence. subst i. split; reflexivity.
    - rewrite lookup_insert_ne by congruence. eauto. }
  destruct Hi1 as (i1 & Hi1 & Hcaller1 & _).
  assert (Hi2 : ∃ i2, errs σ2 !! q = Some i2 ∧ Details i2 = Details i).
  { unfold σ2. cbn [errs set_errs]. destruct (decide (q = p)) as [-> | Hne].
    - rewrite lookup_insert_eq. exists a2. split; [reflexivity |].
      assert (i = a) by congruence. subst i. reflexivity.
    - rewrite lookup_insert_ne by congruence. eauto. }
  destruct Hi2 as (i2 & Hi2 & Hdet2).
  (* everything before [e.Err = err] *)
  match goal with
  | |- ∃ σ' md, (?X ≫= ?g) σ = _ ∧ _ =>
      assert (HX : ∃ σ3 md,
                X σ = Done () σ3 ∧
                errs σ3 = <[p := mkAppError (Message a2) (Code a2) (Err a2)
                                   (Caller a2) md]> (errs σ) ∧
                default ∅ (md ≫= (details σ3 !!.))
                  = default ∅ (Details a ≫= (details σ !!.))
                    ∪ default ∅ (Details i ≫= (details σ !!.)) ∧
                (∀ m, md ≠ Some m → details σ3 !! m = details σ !! m) ∧
                (md = Details a ∨
                 Details a = None ∧ ∃ m, md = Some m ∧ details σ !! m = None) ∧
                separator σ3 = separator σ)
  end.
  { rewrite (bind_Done _ _ σ a σ (load_live σ p a Ha)).
    rewrite (bind_Done _ _ σ () σ1 (inherit_code σ p q a i Ha Hi)).
    assert (Ha1 : errs σ1 !! p = Some a1) by apply lookup_insert_eq.
    rewrite (bind_Done _ _ σ1 a1 σ1 (load_live σ1 p a1 Ha1)).
    assert (Hstep2 := inherit_caller σ1 p q a1 i1 Ha1 Hi1).
    cbn [Message Code Err Caller Details a1] in Hstep2.
    rewrite Hcaller1 in Hstep2.
    unfold σ1 in Hstep2 at 2. rewrite set_errs_twice in Hstep2.
    fold a2 σ2 in Hstep2.
    cbn [Message Code Err Caller Details a1].
    rewrite (bind_Done _ _ σ1 () σ2 Hstep2).
    assert (Ha2 : errs σ2 !! p = Some a2) by apply lookup_insert_eq.
    destruct (inherit_details σ2 p q a2 i2
                (default ∅ (Details i ≫= (details σ !!.))) Ha2 Hi2)
      as (σ3 & md & Hrun & Herrs & Hmd & Hother & Hwhich & Hsep).
    { rewrite Hdet2. reflexivity. }
    { exact Hlive. }
    exists σ3, md. split; [exact Hrun |].
    split; [| auto].
    rewrite Herrs. unfold σ2. cbn [errs set_errs].
    rewrite insert_insert_eq. reflexivity. }
  destruct HX as (σ3 & md & Hrun & Herrs & Hmd & Hother & Hwhich & Hsep).
  rewrite (bind_Done _ _ σ () σ3 Hrun).
  (* [e.Err = err] *)
  set (a3 := mkAppError (Message a2) (Code a2) (Err a2) (Caller a2) md) in *.
  assert (Ha3 : errs σ3 !! p = Some a3)
    by (rewrite Herrs; apply lookup_insert_eq).
  rewrite (bind_Done _ _ σ3 a3 σ3 (load_live σ3 p a3 Ha3)).
  rewrite (bind_Done _ _ σ3 () _ (store_live σ3 p a3 _ Ha3)).
  eexists _, md. split; [reflexivity |].
  cbn [errs details separator set_errs].
  split; [rewrite Herrs, insert_insert_eq; reflexivity |].
  split; [exact Hmd |]. split; [exact Hother |].
  split; [exact Hwhich | exact Hsep].
Qed.

(** [WithError] around an error that holds no [AppError]: only [Err]
    is set. *)
Lemma WithError_plain σ p a ev :
  errs σ !! p = Some a → errors_As ev = None →
  WithError (Some p) (Some ev) σ
  = Done (Some p)
      (set_errs <[p := mkAppError (Message a) (Code a) (Some ev) (Caller a)
                          (Details a)]> σ).
Proof.
  intros Ha Has. unfold WithError. rewrite Has.
  rewrite (bind_Done _ (mret ()) σ () σ eq_refl).
  rewrite (bind_Done _ _ σ a σ (load_live σ p a Ha)).
  rewrite (bind_Done _ _ σ () _ (store_live σ p a _ Ha)). reflexivity.
Qed.

(** X7: [WithError] takes over what the wrapped [AppError] knows and the
    receiver lacks: the code and the caller where its own are empty, and
    the detail entries under keys it does not have. The message stays,
    [Err] becomes the wrapped error, no other struct changes, and the
    wrapped error's details hold what they held. *)
Theorem WithError_inherits σ p q a i ev :
  errs σ !! p = Some a → errors_As ev = Some (Some q) →
  errs σ !! q = Some i →
  (∀ m, Details a = Some m ∨ Details i = Some m → is_Some (details σ !! m)) →
  ∃ σ' a',
    WithError (Some p) (Some ev) σ = Done (Some p) σ' ∧
    errs σ' !! p = Some a' ∧
    Message a' = Message a ∧ Err a' = Some ev ∧
    Code a' = (if String.eqb (Code a) "" then Code i else Code a) ∧
    Caller a' = (if String.eqb (Caller a) "" then Caller i else Caller a) ∧
    details_at σ' p
      = Some (default ∅ (Details a ≫= (details σ !!.))
              ∪ default ∅ (Details i ≫= (details σ !!.))) ∧
    (∀ r, r ≠ p → errs σ' !! r = errs σ !! r) ∧
    default ∅ (Details i ≫= (details σ' !!.))
      = default ∅ (Details i ≫= (details σ !!.)).
Proof.
  intros Ha Has Hi Hlive.
  destruct (WithError_app σ p q a i ev Ha Has Hi)
    as (σ' & md & Hrun & Herrs & Hmd & Hother & Hwhich & _).
  { intros m Hm. apply Hlive. left. exact Hm. }
  eexists σ', _. split; [exact Hrun |].
  split; [rewrite Herrs; apply lookup_insert_eq |].
  cbn [Message Err Code Caller]. repeat (split; [reflexivity |]).
  split.
  { unfold details_at. rewrite Herrs, lookup_insert_eq. simpl.
    rewrite <- Hmd. reflexivity. }
  split.
  { intros r Hr. rewrite Herrs. apply lookup_insert_ne. congruence. }
  destruct (Details i) as [mi |] eqn:Hmi; [| reflexivity]. simpl.
  destruct (Hlive mi (or_intror eq_refl)) as [x Hx].
  destruct (decide (md = Some mi)) as [-> | Hne].
  - simpl in Hmd. rewrite Hmd.
    destruct Hwhich as [Hsame | (_ & m & [= <-] & Hnone)]; [| congruence].
    rewrite <- Hsame. simpl. apply (idemp_L (∪)).
  - rewrite (Hother mi Hne). reflexivity.
Qed.

Lemma GetCode_app σ ev q i :
  errors_As ev = Some (Some q) → errs σ !! q = Some i →
  GetCode (Some ev) σ
  = Done (if negb (String.eqb (Code i) "") then Code i else INTERNAL) σ.
Proof.
  intros Has Hi. run. rewrite Has. simpl. rewrite Hi.
  destruct (String.eqb (Code i) ""); reflexivity.
Qed.

Lemma GetCode_plain σ ev :
  errors_As ev = None → GetCode (Some ev) σ = Done INTERNAL σ.
Proof. intros Has. run. rewrite Has. reflexivity. Qed.

Lemma Unwrap_live σ p a :
  errs σ !! p = Some a → Unwrap (Some p) σ = Done (Err a) σ.
Proof. intros Ha. run. rewrite Ha. reflexivity. Qed.

(** X8: Wrapping keeps the code visible from outside: after
    [e.WithError(err)], [Unwrap] gives [err] back, and [GetCode] of [e]
    is [e]'s own code if it had one, and [GetCode(err)] otherwise, also
    when the [AppError] sits under [fmt.Errorf] wrappers or when there
    is none. *)
Theorem WithError_keeps_code σ p a ev :
  errs σ !! p = Some a →
  (∀ m, Details a = Some m → is_Some (details σ !! m)) →
  (∀ e, errors_As ev = Some e → is_Some (e ≫= (errs σ !!.))) →
  ∃ σ' c,
    WithError (Some p) (Some ev) σ = Done (Some p) σ' ∧
    Unwrap (Some p) σ' = Done (Some ev) σ' ∧
    GetCode (Some ev) σ = Done c σ ∧
    GetCode (Some (App (Some p))) σ'
      = Done (if String.eqb (Code a) "" then c else Code a) σ'.
Proof.
  intros Ha Hlive Hinner.
  destruct (errors_As ev) as [e |] eqn:Has.
  - destruct (Hinner e eq_refl) as [i Hi].
    destruct e as [q |]; [| discriminate]. simpl in Hi.
    destruct (WithError_app σ p q a i ev Ha Has Hi Hlive)
      as (σ' & md & Hrun & Herrs & _).
    exists σ', (if negb (String.eqb (Code i) "") then Code i else INTERNAL).
    split; [exact Hrun |].
    assert (Hp : errs σ' !! p = Some _)
      by (rewrite Herrs; apply lookup_insert_eq).
    rewrite (Unwrap_live σ' p _ Hp), (GetCode_app σ ev q i Has Hi).
    rewrite (GetCode_app σ' (App (Some p)) p _ eq_refl Hp).
    cbn [Err Code]. split; [reflexivity |]. split; [reflexivity |].
    destruct (String.eqb (Code a) "") eqn:Hca.
    + destruct (String.eqb (Code i) ""); reflexivity.
    + rewrite Hca. reflexivity.
  - rewrite (WithError_plain σ p a ev Ha Has), (GetCode_plain σ ev Has).
    eexists _, INTERNAL. split; [reflexivity |].
    match goal with
    | |- context [Unwrap _ ?s] =>
        assert (Hp : errs s !! p = Some (mkAppError (Message a) (Code a)
                                           (Some ev) (Caller a) (Details a)))
          by apply lookup_insert_eq;
        rewrite (Unwrap_live s p _ Hp),
          (GetCode_app s (App (Some p)) p _ eq_refl Hp)
    end.
    cbn [Err Code]. split; [reflexivity |]. split; [reflexivity |].
    destruct (String.eqb (Code a) ""); reflexivity.
Qed.

(** X9: The nil-pointer trap: an [error] interface that holds a nil
    [*AppError], such as the result of [GetAppError] on an error without
    an [AppError], is not nil, [errors.As] accepts it, and [WithError]
    panics on it. *)
Theorem WithError_nil_AppError_panics σ p a (err : option error) :
  errs σ !! p = Some a → IsAppError err = false →
  IsAppError (Some (App (GetAppError err))) = true ∧
  WithError (Some p) (Some (App (GetAppError err))) σ = Crash.
Proof.
  intros Ha Hnot. split; [reflexivity |].
  assert (Hnil : GetAppError err = None).
  { unfold IsAppError in Hnot. unfold GetAppError.
    destruct (err ≫= errors_As); [discriminate | reflexivity]. }
  rewrite Hnil. unfold WithError. cbn [errors_As].
  unfold mbind at 1, E_bind at 1.
  rewrite (bind_Done _ _ σ a σ (load_live σ p a Ha)).
  destruct (String.eqb (Code a) "") eqn:Hc; [reflexivity |].
  rewrite (bind_Done _ (mret ()) σ () σ eq_refl).
  rewrite (bind_Done _ _ σ a σ (load_live σ p a Ha)).
  destruct (String.eqb (Caller a) ""); reflexivity.
Qed.

(** *** [WithCaller] *)

(** X5: [WithCaller] records the first call site only: on an error without
    a caller, a second [WithCaller] from anywhere changes nothing, and
    the caller recorded is never empty. *)
Theorem WithCaller_first_wins σ p a (s1 s2 : site) :
  errs σ !! p = Some a → Caller a = "" →
  ∃ σ',
    (e ← WithCaller (Some p) s1; WithCaller e s2) σ = Done (Some p) σ' ∧
    WithCaller (Some p) s1 σ = Done (Some p) σ' ∧
    Caller <$> errs σ' !! p = Some (format_site s1) ∧
    format_site s1 ≠ "".
Proof.
  intros Ha Hempty. eexists. run. rewrite Ha. simpl. rewrite Hempty. simpl.
  rewrite Ha. simpl. rewrite lookup_insert_eq. simpl.
  split; [reflexivity |]. split; [reflexivity |].
  cbn [errs set_errs]. rewrite lookup_insert_eq.
  split; [reflexivity | discriminate].
Qed.

(** *** [Error] *)

Lemma append_assoc (x y z : string) : (x +:+ y) +:+ z = x +:+ y +:+ z.
Proof.
  induction x as [| c x IH]; [reflexivity |].
  change (String c ((x +:+ y) +:+ z) = String c (x +:+ y +:+ z)).
  f_equal. exact IH.
Qed.

Lemma chain_nonempty σ ev msgs : chain σ ev msgs → msgs ≠ [].
Proof. intros H. destruct H; discriminate. Qed.

(** What [%s] prints for an error whose chain ends: the messages joined
    by the separator, for any fuel that covers the chain. *)
Lemma fmt_s_chain σ ev msgs :
  chain σ ev msgs →
  ∀ n, length msgs ≤ n →
  fmt_s n σ ev = Some (String.concat (" " +:+ separator σ +:+ " ") msgs).
Proof.
  induction 1 as [msg | msg inner | e He | p a Ha Herr
                 | p a inner msgs Ha Herr Hch IH]; intros n Hn.
  - destruct n; reflexivity.
  - destruct n; reflexivity.
  - destruct n as [| n]; [simpl in Hn; lia |]. simpl. rewrite He. reflexivity.
  - destruct n as [| n]; [simpl in Hn; lia |]. simpl. rewrite Ha, Herr.
    reflexivity.
  - destruct n as [| n]; [simpl in Hn; lia |]. simpl in Hn.
    cbn [fmt_s]. simpl. rewrite Ha, Herr, (IH n) by lia.
    destruct msgs as [| m1 rest]; [exfalso; eapply chain_nonempty; eauto |].
    simpl. rewrite !append_assoc. reflexivity.
Qed.

(** [Error()] on a live error is what [%s] prints for it, with one
    more unit of fuel. *)
Lemma Error_fmt_s σ p n :
  is_Some (errs σ !! p) →
  Error n (Some p) σ = (λ s, Done s σ) <$> fmt_s (S n) σ (App (Some p)).
Proof.
  intros [a Ha]. unfold Error. simpl. rewrite Ha.
  destruct (Err a) as [inner |]; [| reflexivity].
  destruct (fmt_s n σ inner); reflexivity.
Qed.

(** X10: [Error()] of an error whose chain of wrapped errors ends is the
    messages of the chain, outermost first, joined by the separator with
    a space on each side; it reads the separator in force at the time of
    the call. *)
Theorem Error_joins_chain σ p msgs n :
  is_Some (errs σ !! p) → chain σ (App (Some p)) msgs → length msgs ≤ n →
  Error n (Some p) σ
  = Some (Done (String.concat (" " +:+ separator σ +:+ " ") msgs) σ).
Proof.
  intros Hlive Hch Hn. rewrite (Error_fmt_s σ p n Hlive).
  rewrite (fmt_s_chain σ (App (Some p)) msgs Hch (S n)) by lia.
  reflexivity.
Qed.

(** An error that wraps itself prints forever. *)
Lemma fmt_s_cycle σ p a :
  errs σ !! p = Some a → Err a = Some (App (Some p)) →
  ∀ n, fmt_s n σ (App (Some p)) = None.
Proof.
  intros Ha Herr n. induction n as [| n IH]; [reflexivity |].
  simpl. rewrite Ha, Herr, IH. reflexivity.
Qed.

(** X11: [e.WithError(e)] succeeds, and from then on [e.Error()] does not
    return: no amount of fuel is enough. *)
Theorem Error_self_wrap_diverges σ p a :
  errs σ !! p = Some a →
  (∀ m, Details a = Some m → is_Some (details σ !! m)) →
  ∃ σ',
    WithError (Some p) (Some (App (Some p))) σ = Done (Some p) σ' ∧
    ∀ n, Error n (Some p) σ' = None.
Proof.
  intros Ha Hlive.
  destruct (WithError_app σ p p a a (App (Some p)) Ha eq_refl Ha Hlive)
    as (σ' & md & Hrun & Herrs & _).
  exists σ'. split; [exact Hrun |]. intros n.
  assert (Hp : errs σ' !! p = Some _)
    by (rewrite Herrs; apply lookup_insert_eq).
  unfold Error. simpl. rewrite Hp. cbn [Err].
  rewrite (fmt_s_cycle σ' p _ Hp eq_refl). reflexivity.
Qed.

(** *** The loggers *)


End apperror_facts.

Section apperror_examples.
Import errx apperror.

Lemma WithCode_first_wins_witness :
  ∃ σ',
    (e ← WithCode (Some 1%positive) CONFLICT; WithCode e INTERNAL)
      (after (New "x") (start string)) = Done (Some 1%positive) σ' ∧
    GetCode (Some (App (Some 1%positive))) σ' = Done CONFLICT σ'.
Proof.
  destruct (WithCode_first_wins (after (New "x") (start string)) 1%positive
              (mkAppError "x" "" None "" None) CONFLICT INTERNAL)
    as (σ' & Hrun & _ & _ & Hcode).
  - vm_compute; reflexivity.
  - reflexivity.
  - discriminate.
  - exists σ'. split; [exact Hrun | exact Hcode].
Defined.


Lemma WithError_inherits_witness :
  ∃ σ' a',
    WithError (Some 1%positive) (Some (App (Some 2%positive)))
      (after (_ ← New "a"; b ← New "b"; WithCode b FORBIDDEN) (start string))
      = Done (Some 1%positive) σ' ∧
    errs σ' !! 1%positive = Some a' ∧ Code a' = FORBIDDEN.
Proof.
  destruct (WithError_inherits
              (after (_ ← New "a"; b ← New "b"; WithCode b FORBIDDEN)
                 (start string))
              1%positive 2%positive
              (mkAppError "a" "" None "" None)
              (mkAppError "b" FORBIDDEN None "" None)
              (App (Some 2%positive)))
    as (σ' & a' & Hrun & Ha' & _ & _ & Hcode & _).
  - vm_compute; reflexivity.
  - reflexivity.
  - vm_compute; reflexivity.
  - intros m [[=] | [=]].
  - exists σ', a'. split; [exact Hrun |]. split; [exact Ha' | exact Hcode].
Defined.

Lemma WithError_keeps_code_witness :
  ∃ σ',
    WithError (Some 3%positive)
      (Some (Wrap "wrapped" (App (Some 2%positive))))
      (after (_ ← New "a"; b ← New "b"; _ ← WithCode b FORBIDDEN; New "c")
         (start string))
      = Done (Some 3%positive) σ' ∧
    GetCode (Some (App (Some 3%positive))) σ' = Done FORBIDDEN σ'.
Proof.
  destruct (WithError_keeps_code
              (after (_ ← New "a"; b ← New "b"; _ ← WithCode b FORBIDDEN;
                      New "c") (start string))
              3%positive (mkAppError "c" "" None "" None)
              (Wrap "wrapped" (App (Some 2%positive))))
    as (σ' & c & Hrun & _ & Hc & Hcode).
  - vm_compute; reflexivity.
  - intros m [=].
  - intros e [= <-]. vm_compute. eauto.
  - exists σ'. split; [exact Hrun |].
    vm_compute in Hc. injection Hc as <-. exact Hcode.
Defined.

Lemma WithError_nil_AppError_panics_witness :
  WithError (Some 1%positive)
    (Some (App (GetAppError (Some (Plain "plain")))))
    (after (New "x") (start string)) = Crash.
Proof.
  apply (WithError_nil_AppError_panics (after (New "x") (start string))
           1%positive (mkAppError "x" "" None "" None) (Some (Plain "plain"))).
  - vm_compute; reflexivity.
  - reflexivity.
Defined.

Lemma WithCaller_first_wins_witness :
  ∃ σ',
    (e ← WithCaller (Some 1%positive) (mkSite "main.go" 12 "main.run");
     WithCaller e (mkSite "util.go" 7 "util.wrap"))
      (after (New "x") (start string)) = Done (Some 1%positive) σ' ∧
    Caller <$> errs σ' !! 1%positive = Some "[main.go:12 main.run]".
Proof.
  destruct (WithCaller_first_wins (after (New "x") (start string)) 1%positive
              (mkAppError "x" "" None "" None)
              (mkSite "main.go" 12 "main.run") (mkSite "util.go" 7 "util.wrap"))
    as (σ' & Hrun & _ & Hcaller & _).
  - vm_compute; reflexivity.
  - reflexivity.
  - exists σ'. split; [exact Hrun | exact Hcaller].
Defined.

(** The chain of the third error of the sample. *)
Lemma sample_chain :
  chain sample_heap (App (Some 3%positive))
    ["handler failed"; "lookup failed"; "repository: no such user"].
Proof.
  eapply (chain_next sample_heap 3%positive
            (mkAppError "handler failed" NOT_FOUND (Some (App (Some 2%positive)))
               "" (Some 4%positive)));
    [vm_compute; reflexivity | reflexivity |].
  eapply (chain_next sample_heap 2%positive
            (mkAppError "lookup failed" NOT_FOUND
               (Some (Wrap "repository: no such user" (App (Some 1%positive))))
               "" (Some 3%positive)));
    [vm_compute; reflexivity | reflexivity |].
  apply chain_wrap.
Qed.

Lemma Error_joins_chain_witness :
  Error 3 (Some 3%positive) sample_heap
  = Some (Done "handler failed -> lookup failed -> repository: no such user"
            sample_heap).
Proof.
  apply (Error_joins_chain sample_heap 3%positive
           ["handler failed"; "lookup failed"; "repository: no such user"] 3).
  - vm_compute. eauto.
  - exact sample_chain.
  - simpl. lia.
Defined.

Lemma Error_self_wrap_diverges_witness :
  ∃ σ',
    WithError (Some 1%positive) (Some (App (Some 1%positive)))
      (after (New "x") (start string)) = Done (Some 1%positive) σ' ∧
    Error 1000 (Some 1%positive) σ' = None.
Proof.
  destruct (Error_self_wrap_diverges (after (New "x") (start string))
              1%positive (mkAppError "x" "" None "" None))
    as (σ' & Hrun & Hloop).
  - vm_compute; reflexivity.
  - intros m [=].
  - exists σ'. split; [exact Hrun | exact (Hloop 1000)].
Defined.


End apperror_examples.

(* ===================================================================== *)
(** ** More of [httpclient]                                               *)
(* ===================================================================== *)

Section httpclient_more.
Import httpclient program.

(** *** The timeout *)

(** X13: The conversion of the timeout to a [time.Duration] is exact for
    timeouts of at most 9223372036 seconds in absolute value, and for no
    others: beyond that the multiplication wraps. *)
Theorem seconds_exact_iff (n : Z) :
  seconds n = (n * 1000000000)%Z ↔ (-9223372036 ≤ n ≤ 9223372036)%Z.
Proof.
  unfold seconds, wrap64, Second. split.
  - intros H.
    assert (Hb := Z.mod_pos_bound (n * 1000000000 + 2 ^ 63) (2 ^ 64) eq_refl).
    lia.
  - intros H. rewrite Z.mod_small by lia. lia.
Qed.

(** *** The headers of the request *)

Lemma Header_foldl_other (net : NetHttp) (l : list (string * string)) :
  ∀ (req : Request) (ck : string),
  (∀ kv, kv ∈ l → canonicalKey net kv.1 ≠ ck) →
  Header (foldl (λ r kv, Header_Set net kv.1 kv.2 r) req l) !! ck
  = Header req !! ck.
Proof.
  induction l as [| [k v] rest IH]; intros req ck Hck; [reflexivity |].
  simpl. rewrite IH.
  - simpl. apply lookup_insert_ne. apply (Hck (k, v)). left.
  - intros kv Hin. apply Hck. right. exact Hin.
Qed.

Lemma Header_foldl_same (net : NetHttp) (l : list (string * string)) :
  ∀ (req : Request) r,
  r = foldl (λ r kv, Header_Set net kv.1 kv.2 r) req l →
  Method r = Method req ∧ URL r = URL req.
Proof.
  induction l as [| [k v] rest IH]; intros req r ->; [split; reflexivity |].
  simpl. destruct (IH (Header_Set net k v req) _ eq_refl) as [-> ->].
  split; reflexivity.
Qed.

Lemma Header_foldl_mem (net : NetHttp) (l : list (string * string)) :
  ∀ (req : Request) (k v : string),
  NoDup (canonicalKey net <$> l.*1) → (k, v) ∈ l →
  Header (foldl (λ r kv, Header_Set net kv.1 kv.2 r) req l)
    !! canonicalKey net k = Some [v].
Proof.
  induction l as [| [k0 v0] rest IH]; intros req k v Hnd Hin.
  - inversion Hin.
  - simpl in Hnd. apply NoDup_cons in Hnd as [Hfirst Hnd].
    apply elem_of_cons in Hin as [[= -> ->] | Hin].
    + simpl. rewrite Header_foldl_other; [apply lookup_insert_eq |].
      intros kv Hkv Heq. apply Hfirst. rewrite <- Heq.
      apply list_elem_of_fmap. exists kv.1. split; [reflexivity |].
      apply list_elem_of_fmap. exists kv. auto.
    + simpl. apply IH; assumption.
Qed.

(** X14: Every configured header reaches the request, whatever order the
    [range] takes: if no two header names of the map share a canonical
    form, the request built by [setHeaderInNewRequest] has, under the
    canonical form of each name, exactly the one configured value; the
    entries under other names, the method and the URL are as before. *)
Theorem setHeaderInNewRequest_delivers (net : NetHttp)
    (kvs : gmap string string) (req : Request) :
  (∀ k1 k2, is_Some (kvs !! k1) → is_Some (kvs !! k2) →
            canonicalKey net k1 = canonicalKey net k2 → k1 = k2) →
  let r := setHeaderInNewRequest net kvs req in
  Method r = Method req ∧ URL r = URL req ∧
  (∀ k v, kvs !! k = Some v → Header r !! canonicalKey net k = Some [v]) ∧
  (∀ ck, (∀ k, is_Some (kvs !! k) → canonicalKey net k ≠ ck) →
         Header r !! ck = Header req !! ck).
Proof.
  intros Hinj r. unfold r, setHeaderInNewRequest.
  assert (Hperm := rangeOrder_perm net kvs).
  assert (Hin : ∀ k v, (k, v) ∈ rangeOrder net kvs ↔ kvs !! k = Some v).
  { intros k v. rewrite Hperm. apply elem_of_map_to_list. }
  assert (Hnd : NoDup (canonicalKey net <$> (rangeOrder net kvs).*1)).
  { apply NoDup_fmap_2_strong.
    - intros k1 k2 H1 H2 Heq.
      apply list_elem_of_fmap in H1 as ([k1' v1] & -> & H1).
      apply list_elem_of_fmap in H2 as ([k2' v2] & -> & H2).
      apply Hin in H1. apply Hin in H2. simpl in *. eauto.
    - rewrite Hperm. apply NoDup_fst_map_to_list. }
  destruct (Header_foldl_same net (rangeOrder net kvs) req _ eq_refl)
    as [Hm Hu].
  split; [exact Hm |]. split; [exact Hu |]. split.
  - intros k v Hkv. apply Header_foldl_mem; [exact Hnd |]. apply Hin, Hkv.
  - intros ck Hck. apply Header_foldl_other.
    intros [k v] Hkv. apply Hck. apply Hin in Hkv. simpl. eauto.
Qed.

Lemma setHeaderInNewRequest_delivers_witness :
  let r := setHeaderInNewRequest example_net
             (<["test" := "val1"]> {["Content-Type" := "application/json"]})
             (mkRequest "GET" "https://httpbin.org/get" ∅) in
  Header r !! "test" = Some ["val1"] ∧
  Header r !! "Content-Type" = Some ["application/json"].
Proof.
  intros r.
  destruct (setHeaderInNewRequest_delivers example_net
              (<["test" := "val1"]> {["Content-Type" := "application/json"]})
              (mkRequest "GET" "https://httpbin.org/get" ∅))
    as (_ & _ & Hall & _).
  - intros k1 k2 _ _ Heq. exact Heq.
  - split; [apply (Hall "test" "val1") | apply (Hall "Content-Type" "application/json")];
      vm_compute; reflexivity.
Defined.

(** *** What a call puts on the wire *)

(** X15: When the request can be built, [SendGet] sends one [GET] to the
    configured URL under the timeout [timeout * time.Second]; every
    response that arrives has its body closed, once and after the
    request, whether or not reading it succeeds; and nothing is closed
    when no response arrives. *)
Theorem SendGet_wire (net : NetHttp) (σ : state) (p : loc) (c : HttpClient) :
  clients σ !! p = Some c →
  ∃ out σ',
    SendGet net (Some p) σ = Ok out σ' ∧
    wire σ' = wire σ ++
      match request_of net σ c with
      | inr _ => []
      | inl req =>
          EvDo (seconds (timeout c)) req ::
          match roundTrip net (wire σ) (seconds (timeout c)) req with
          | inl resp => [EvClose resp]
          | inr _ => []
          end
      end ∧
    (∀ req, request_of net σ c = inl req →
            Method req = "GET" ∧ URL req = url c).
Proof.
  intros Hc. rewrite (SendGet_cases net σ p c Hc).
  assert (Hreq : ∀ req, request_of net σ c = inl req →
                        Method req = "GET" ∧ URL req = url c).
  { unfold request_of, NewRequest. intros req.
    destruct (urlParse net (url c)); [discriminate |]. intros [= <-].
    unfold setHeaderInNewRequest.
    apply (Header_foldl_same net _ (mkRequest "GET" (url c) ∅) _ eq_refl). }
  destruct (request_of net σ c) as [req | err]; simpl.
  - destruct (roundTrip net (wire σ) _ req) as [resp | err]; simpl.
    + destruct (readErr (Body resp)); eexists _, _; (split; [reflexivity |]);
        simpl; rewrite <- app_assoc; (split; [reflexivity | exact Hreq]).
    + eexists _, _. split; [reflexivity |]. split; [reflexivity | exact Hreq].
  - eexists _, _. split; [reflexivity |]. simpl. rewrite app_nil_r.
    split; [reflexivity | exact Hreq].
Qed.

Lemma SendGet_wire_witness :
  ∃ out σ' req,
    SendGet example_net (Some 1%positive)
      (configured "http://example.test/truncated") = Ok out σ' ∧
    wire σ' = [EvDo 2000000000 req;
               EvClose (mkResponse 200 (mkBody (bytes "{") (Some "unexpected EOF")))].
Proof.
  destruct (SendGet_wire example_net (configured "http://example.test/truncated")
              1%positive
              (mkClient "http://example.test/truncated" (Some 1%positive) 5 2))
    as (out & σ' & Hrun & Hwire & _).
  - vm_compute; reflexivity.
  - eexists out, σ', _. split; [exact Hrun |]. rewrite Hwire.
    vm_compute. reflexivity.
Defined.

(** *** Clients do not share headers *)

(** X16: A client made by [NewHttpClient] shares nothing with the clients
    that exist: it is a different struct, and whatever builder is then
    called on it, every existing client keeps its fields and the
    contents of its header map. *)
Theorem NewHttpClient_isolated (ops : OptionsHttpclient) (b : builder)
    (σ : state) (q : loc) (kvq : gmap string string) :
  header_map σ (Some q) = Some kvq →
  ∃ p σ1 σ2,
    NewHttpClient ops σ = Ok (Some p) σ1 ∧
    call b (Some p) σ1 = Ok (Some p) σ2 ∧
    p ≠ q ∧
    clients σ2 !! q = clients σ !! q ∧
    header_map σ2 (Some q) = Some kvq.
Proof.
  intros Hq. apply header_map_Some in Hq as (cq & aq & Hcq & Haq & Hmq).
  set (p := fresh (dom (clients σ))). set (m := fresh (dom (maps σ))).
  assert (Hp : p ≠ q).
  { intros Heq. apply (is_fresh (dom (clients σ))). fold p. rewrite Heq.
    apply elem_of_dom. eauto. }
  assert (Hm : m ≠ aq).
  { intros Heq. apply (is_fresh (dom (maps σ))). fold m. rewrite Heq.
    apply elem_of_dom. eauto. }
  set (c0 := mkClient "" (Some m) (RetryCount ops) (Timeout ops)).
  set (σ1 := mkState (<[p := c0]> (clients σ))
               (<[m := {["Content-Type" := "application/json"]}]> (maps σ))
               (retryableStatus σ) (wire σ)).
  assert (Hc0 : clients σ1 !! p = Some c0) by apply lookup_insert_eq.
  assert (Hm0 : maps σ1 !! m = Some {["Content-Type" := "application/json"]})
    by apply lookup_insert_eq.
  exists p, σ1. 
  assert (Hq1 : ∀ σ2, clients σ2 !! q = clients σ !! q →
                      maps σ2 !! aq = maps σ !! aq →
                      clients σ2 !! q = clients σ !! q ∧
                      header_map σ2 (Some q) = Some kvq).
  { intros σ2 H1 H2. split; [exact H1 |]. apply header_map_Some.
    exists cq, aq. rewrite H1, H2. auto. }
  destruct b as [target | key value | token]; cbn [call].
  - rewrite (SetUrl_live σ1 p c0 target Hc0). eexists.
    split; [apply NewHttpClient_run |]. split; [reflexivity |].
    split; [exact Hp |]. apply Hq1; cbn [clients maps set_clients σ1].
    + rewrite !lookup_insert_ne by congruence. reflexivity.
    + apply lookup_insert_ne. congruence.
  - rewrite (SetHeader_live σ1 p m c0 _ key value Hc0 eq_refl Hm0). eexists.
    split; [apply NewHttpClient_run |]. split; [reflexivity |].
    split; [exact Hp |]. apply Hq1; cbn [clients maps set_maps σ1].
    + apply lookup_insert_ne. congruence.
    + rewrite !lookup_insert_ne by congruence. reflexivity.
  - rewrite (SetBearerToken_live σ1 p m c0 _ token Hc0 eq_refl Hm0). eexists.
    split; [apply NewHttpClient_run |]. split; [reflexivity |].
    split; [exact Hp |]. apply Hq1; cbn [clients maps set_maps σ1].
    + apply lookup_insert_ne. congruence.
    + rewrite !lookup_insert_ne by congruence. reflexivity.
Qed.

Lemma NewHttpClient_isolated_witness :
  ∃ p σ1 σ2,
    NewHttpClient (mkOptions 0 30) (configured "https://httpbin.org/get")
      = Ok (Some p) σ1 ∧
    call (BSetHeader "test" "other") (Some p) σ1 = Ok (Some p) σ2 ∧
    (default ∅ (header_map σ2 (Some 1%positive))) !! "test" = Some "val1".
Proof.
  destruct (NewHttpClient_isolated (mkOptions 0 30) (BSetHeader "test" "other")
              (configured "https://httpbin.org/get") 1%positive
              (<["test2" := "val2"]> (<["test" := "val1"]>
                 (<["Content-Type" := "application/json"]> ∅))))
    as (p & σ1 & σ2 & Hnew & Hcall & _ & _ & Hmap).
  - vm_compute; reflexivity.
  - exists p, σ1, σ2. split; [exact Hnew |]. split; [exact Hcall |].
    refine (eq_trans (f_equal (λ o : option (gmap string string),
                                 default ∅ o !! "test") Hmap) _).
    vm_compute. reflexivity.
Defined.

(** *** Order of the builder calls *)

(** X17: Headers under different names can be set in either order, and the
    URL before or after a header: the program ends in the same state,
    or in the same panic. *)
Theorem builders_commute (h : option loc) (k1 v1 k2 v2 target : string)
    (σ : state) :
  k1 ≠ k2 →
  (h' ← SetHeader h k1 v1; SetHeader h' k2 v2) σ
    = (h' ← SetHeader h k2 v2; SetHeader h' k1 v1) σ ∧
  (h' ← SetUrl h target; SetHeader h' k1 v1) σ
    = (h' ← SetHeader h k1 v1; SetUrl h' target) σ.
Proof.
  intros Hne. destruct h as [p |]; [| split; reflexivity].
  unfold SetHeader, SetUrl, load, store, map_assign, mbind, M_bind, mret,
    M_ret; simpl.
  destruct (clients σ !! p) as [c |] eqn:Hc; simpl; [| split; reflexivity].
  rewrite Hc. simpl. rewrite lookup_insert_eq. simpl.
  destruct (headers c) as [a |] eqn:Ha; simpl; [| split; reflexivity].
  destruct (maps σ !! a) as [kv |] eqn:Hm; simpl; [| split; reflexivity].
  rewrite Hc. simpl. rewrite Ha, !lookup_insert_eq. simpl. rewrite Hc.
  unfold set_maps, set_clients. simpl. split; [| reflexivity].
  rewrite !insert_insert_eq, (insert_insert_ne kv k1 k2) by congruence.
  reflexivity.
Qed.

Lemma builders_commute_witness :
  (h' ← SetHeader (Some 1%positive) "a" "1"; SetHeader h' "b" "2")
    (configured "https://httpbin.org/get")
  = (h' ← SetHeader (Some 1%positive) "b" "2"; SetHeader h' "a" "1")
      (configured "https://httpbin.org/get").
Proof.
  apply (builders_commute (Some 1%positive) "a" "1" "b" "2" ""
           (configured "https://httpbin.org/get")).
  discriminate.
Defined.

(** *** The demo program *)


End httpclient_more.

(* ===================================================================== *)
(** ** Properties of [server]                                             *)
(* ===================================================================== *)

Section server_facts.
Import server.
Context {F R : Type}.




End server_facts.

Section correlation_facts.
Import server.

(** X20: The correlation id: the response always carries exactly one value
    under the header, never an empty one when generated ids are not
    empty; it is the first value of the request's header if that is not
    empty and the generated id otherwise (also for a header that is
    present but empty); [c.Next()] is called once, and no other header
    changes. *)
Theorem correlation_id_set (canon : string → string) (uuid : string)
    (c : Context) :
  uuid ≠ "" →
  let key := canon "x-itau-correlation-id" in
  let c' := xItauCorrelationId_handler canon uuid c in
  ∃ id,
    responseHeader c' !! key = Some [id] ∧ id ≠ "" ∧
    (∀ v vs, requestHeader c !! key = Some (v :: vs) → v ≠ "" → id = v) ∧
    (∀ vs, requestHeader c !! key = None ∨ requestHeader c !! key = Some [] ∨
           requestHeader c !! key = Some ("" :: vs) → id = uuid) ∧
    nexts c' = S (nexts c) ∧
    requestHeader c' = requestHeader c ∧
    (∀ k, k ≠ key → responseHeader c' !! k = responseHeader c !! k).
Proof.
  intros Huuid key c'. unfold c', xItauCorrelationId_handler, Header_Get.
  fold key. cbn [responseHeader nexts requestHeader].
  eexists. split; [apply lookup_insert_eq |].
  destruct (requestHeader c !! key) as [[| v vs] |] eqn:Hreq; simpl.
  - split; [exact Huuid |]. split; [intros ? ? [=] |].
    split; [reflexivity |]. split; [reflexivity |]. split; [reflexivity |].
    intros k Hk. apply lookup_insert_ne. congruence.
  - destruct (String.eqb_spec v "") as [-> | Hv].
    + split; [exact Huuid |]. split; [intros ? ? [= <- <-] Hne; congruence |].
      split; [reflexivity |]. split; [reflexivity |]. split; [reflexivity |].
      intros k Hk. apply lookup_insert_ne. congruence.
    + split; [exact Hv |]. split; [intros ? ? [= <- <-] _; reflexivity |].
      split; [intros ws [[=] | [[=] | [= Hv' _]]]; congruence |].
      split; [reflexivity |]. split; [reflexivity |].
      intros k Hk. apply lookup_insert_ne. congruence.
  - split; [exact Huuid |]. split; [intros ? ? [=] |].
    split; [reflexivity |]. split; [reflexivity |]. split; [reflexivity |].
    intros k Hk. apply lookup_insert_ne. congruence.
Qed.

Lemma correlation_id_set_witness :
  let c' := xItauCorrelationId_handler (λ k, k) "0b5e7f0a-generated"
              (mkContext {["x-itau-correlation-id" := ["abc"; "def"]]} ∅ 0) in
  ∃ id, responseHeader c' !! "x-itau-correlation-id" = Some [id] ∧ id = "abc".
Proof.
  intros c'.
  destruct (correlation_id_set (λ k, k) "0b5e7f0a-generated"
              (mkContext {["x-itau-correlation-id" := ["abc"; "def"]]} ∅ 0))
    as (id & Hresp & _ & Hecho & _).
  - discriminate.
  - exists id. split; [exact Hresp |].
    apply (Hecho "abc" ["def"]); [vm_compute; reflexivity | discriminate].
Defined.

End correlation_facts.
